(** * Session tokens and media-asset synchronisation of the video backend

    A shallow embedding of the request handlers that issue, rotate and revoke
    tokens (controllers/user.controller.js, the auth middlewares) and of the
    handlers that upload, replace and delete Cloudinary assets
    (utils/cloudinary.js, controllers/video.controller.js).

    Handlers are written once, as programs over the calls they make to the
    outside (MongoDB through Mongoose, Cloudinary, the local file system,
    jsonwebtoken).  A sequential interpreter runs one request to completion;
    a scheduler interleaves two requests at their [await] points. *)

From stdpp Require Import base strings list gmap.
From Stdlib Require Import Ascii Lia.

(** ** JavaScript values used by the handlers *)

Module Js.

(** [!s] on a value that is a string or [undefined]. *)
Definition truthy (v : option string) : bool :=
  match v with
  | Some s => negb (String.eqb s "")
  | None => false
  end.

(** [a || b] on such values. *)
Definition or (a b : option string) : option string :=
  if truthy a then a else b.

Fixpoint drop (n : nat) (s : string) : string :=
  match n, s with
  | O, _ => s
  | S _, EmptyString => EmptyString
  | S n', String _ s' => drop n' s'
  end.

(** [s.includes(pat)] *)
Fixpoint includes (pat s : string) : bool :=
  String.prefix pat s ||
  match s with
  | EmptyString => false
  | String _ s' => includes pat s'
  end.

(** [s.replace(pat, rep)] with a string pattern: the first occurrence only. *)
Fixpoint replace (pat rep s : string) : string :=
  if String.prefix pat s then rep +:+ drop (String.length pat) s
  else match s with
       | EmptyString => EmptyString
       | String c s' => String c (replace pat rep s')
       end.

(** [s.split(sep)] for a one-character separator; never the empty list. *)
Fixpoint split (sep : Ascii.ascii) (s : string) : list string :=
  match s with
  | EmptyString => [EmptyString]
  | String c s' =>
      if Ascii.eqb c sep then EmptyString :: split sep s'
      else match split sep s' with
           | h :: t => String c h :: t
           | [] => [String c EmptyString]
           end
  end.

(** [xs[xs.length - 1]] *)
Definition last_part (xs : list string) : string := List.last xs EmptyString.

(** [xs[0]] *)
Definition first_part (xs : list string) : string := List.hd EmptyString xs.

(** What can be thrown: the project's [ApiError], or an exception raised by
    the runtime or a library ([TypeError], [TokenExpiredError], ...). *)
Inductive Error : Type :=
| ApiError (statusCode : nat) (message : string)
| Exception (name message : string).

Definition message (e : Error) : string :=
  match e with
  | ApiError _ m => m
  | Exception _ m => m
  end.

(** [error?.message || fallback] *)
Definition message_or (e : Error) (fallback : string) : string :=
  if String.eqb (message e) "" then fallback else message e.

End Js.

(** ** Documents *)

(** A user document.  [user_password] and [user_refreshToken] are [None] when
    the field is absent: unset in the store, or projected away by
    [.select("-password -refreshToken")]. *)
Record User : Type := mkUser {
  user_id : string;
  user_username : string;
  user_email : string;
  user_fullName : string;
  user_avatar : string;
  user_coverImage : string;
  user_password : option string;
  user_refreshToken : option string
}.

Definition with_refreshToken (t : option string) (u : User) : User :=
  mkUser (user_id u) (user_username u) (user_email u) (user_fullName u)
         (user_avatar u) (user_coverImage u) (user_password u) t.

Definition with_password (p : option string) (u : User) : User :=
  mkUser (user_id u) (user_username u) (user_email u) (user_fullName u)
         (user_avatar u) (user_coverImage u) p (user_refreshToken u).

Definition with_avatar (url : string) (u : User) : User :=
  mkUser (user_id u) (user_username u) (user_email u) (user_fullName u)
         url (user_coverImage u) (user_password u) (user_refreshToken u).

Definition with_coverImage (url : string) (u : User) : User :=
  mkUser (user_id u) (user_username u) (user_email u) (user_fullName u)
         (user_avatar u) url (user_password u) (user_refreshToken u).

(** [.select("-password -refreshToken")] and [.select("-password")] *)
Definition select_public (u : User) : User :=
  with_refreshToken None (with_password None u).

Definition select_no_password (u : User) : User := with_password None u.

Record Video : Type := mkVideo {
  video_id : string;
  video_videoFile : string;
  video_thumbnail : string;
  video_title : string;
  video_description : string;
  video_duration : nat;
  video_views : nat;
  video_owner : string;
  video_isPublished : bool
}.

(** The update documents the handlers pass to [findByIdAndUpdate]. *)
Inductive UserUpdate : Type :=
| SetAvatar (url : string)
| SetCoverImage (url : string)
| UnsetRefreshToken.

Definition apply_user_update (upd : UserUpdate) (u : User) : User :=
  match upd with
  | SetAvatar url => with_avatar url u
  | SetCoverImage url => with_coverImage url u
  | UnsetRefreshToken => with_refreshToken None u
  end.

(** [{ $set: updateData }] where [updateData] holds only the keys assigned. *)
Record VideoUpdate : Type := mkVideoUpdate {
  upd_title : option string;
  upd_description : option string;
  upd_thumbnail : option string
}.

Definition apply_video_update (upd : VideoUpdate) (v : Video) : Video :=
  mkVideo (video_id v) (video_videoFile v)
          (default (video_thumbnail v) (upd_thumbnail upd))
          (default (video_title v) (upd_title upd))
          (default (video_description v) (upd_description upd))
          (video_duration v) (video_views v) (video_owner v) (video_isPublished v).

(** The fields given to [Video.create]. *)
Record VideoFields : Type := mkVideoFields {
  new_title : string;
  new_description : string;
  new_duration : nat;
  new_videoFile : string;
  new_thumbnail : string;
  new_views : nat;
  new_owner : option string;
  new_isPublished : bool
}.

(** What [cloudinary.uploader.upload] resolves to (the fields the code reads). *)
Record UploadResponse : Type := mkUploadResponse {
  url : string;
  secure_url : string;
  duration : nat;
  public_id : string
}.

(** Payload of a verified token: [decodedToken?._id]. *)
Record Claims : Type := mkClaims { claim_id : option string }.

(** ** Calls to the outside *)

Inductive Action : Type :=
| ProcessEnv (name : string)
| IsValidObjectId (id : string)
| JwtVerify (token : string) (secret : option string)
| GenerateAccessToken (u : User)
| GenerateRefreshToken (u : User)
| FsUnlinkSync (path : string)
| UserFindById (id : option string)
| UserSave (u : User)
| UserFindByIdAndUpdate (id : option string) (upd : UserUpdate)
| VideoFindById (id : string)
| VideoFindByIdAndUpdate (id : string) (upd : VideoUpdate)
| VideoFindByIdAndDelete (id : string)
| VideoCreate (f : VideoFields)
| CloudinaryUpload (path : string)
| CloudinaryDestroy (publicId resourceType : string).

Definition result (a : Action) : Type :=
  match a with
  | ProcessEnv _ => option string
  | IsValidObjectId _ => bool
  | JwtVerify _ _ => Claims
  | GenerateAccessToken _ | GenerateRefreshToken _ => string
  | FsUnlinkSync _ => unit
  | UserFindById _ => option User
  | UserSave _ => unit
  | UserFindByIdAndUpdate _ _ => option User
  | VideoFindById _ | VideoFindByIdAndUpdate _ _ | VideoFindByIdAndDelete _ => option Video
  | VideoCreate _ => Video
  | CloudinaryUpload _ => UploadResponse
  | CloudinaryDestroy _ _ => string
  end.

(** The calls the source awaits: database and Cloudinary requests.  The others
    return synchronously. *)
Definition is_async (a : Action) : bool :=
  match a with
  | UserFindById _ | UserSave _ | UserFindByIdAndUpdate _ _
  | VideoFindById _ | VideoFindByIdAndUpdate _ _ | VideoFindByIdAndDelete _
  | VideoCreate _ | CloudinaryUpload _ | CloudinaryDestroy _ _ => true
  | _ => false
  end.

(** ** Programs *)

Inductive Prog (A : Type) : Type :=
| Ret (x : A)
| Throw (e : Js.Error)
| Act (a : Action) (k : Js.Error + result a → Prog A).

Arguments Ret {A} x.
Arguments Throw {A} e.
Arguments Act {A} a k.

Fixpoint bind {A B} (p : Prog A) (f : A → Prog B) : Prog B :=
  match p with
  | Ret x => f x
  | Throw e => Throw e
  | Act a k => Act a (λ r, bind (k r) f)
  end.

(** [try { p } catch (error) { h error }] *)
Fixpoint try_catch {A} (p : Prog A) (h : Js.Error → Prog A) : Prog A :=
  match p with
  | Ret x => Ret x
  | Throw e => h e
  | Act a k => Act a (λ r, try_catch (k r) h)
  end.

(** A call whose exception propagates. *)
Definition call (a : Action) : Prog (result a) :=
  Act a (λ r, match r with inl e => Throw e | inr x => Ret x end).

#[global] Instance prog_ret : MRet Prog := @Ret.
#[global] Instance prog_bind : MBind Prog := λ A B f p, bind p f.

(** ** The world a request runs in *)

(** A side-effecting call as it was attempted; the flag tells whether it
    returned normally. *)
Definition Event : Type := Action * bool.

Record World : Type := mkWorld {
  users : gmap string User;
  videos : gmap string Video;
  files : gset string;
  assets : gset string;
  clock : nat;
  trace : list Event
}.

Definition log (ev : Event) (w : World) : World :=
  mkWorld (users w) (videos w) (files w) (assets w) (clock w) (trace w ++ [ev]).

Definition set_users (m : gmap string User) (w : World) : World :=
  mkWorld m (videos w) (files w) (assets w) (clock w) (trace w).

Definition set_videos (m : gmap string Video) (w : World) : World :=
  mkWorld (users w) m (files w) (assets w) (clock w) (trace w).

Definition set_files (s : gset string) (w : World) : World :=
  mkWorld (users w) (videos w) s (assets w) (clock w) (trace w).

Definition set_assets (s : gset string) (w : World) : World :=
  mkWorld (users w) (videos w) (files w) s (clock w) (trace w).

Definition tick (n : nat) (w : World) : World :=
  mkWorld (users w) (videos w) (files w) (assets w) (clock w + n) (trace w).

(** What the code cannot see into: the environment variables, the library
    functions, the token methods of the user model (models/user.model.js is
    not among the sources, so [generateAccessToken] and [generateRefreshToken]
    are parameters), and which remote calls fail. *)
Record Env : Type := mkEnv {
  process_env : gmap string string;
  isValidObjectId : string → bool;
  jwt_verify : string → option string → nat → Js.Error + Claims;
  generateAccessToken : User → nat → string;
  generateRefreshToken : User → nat → string;
  upload_response : string → UploadResponse;
  new_object_id : nat → string;
  fault : Action → option Js.Error
}.

Definition ENOENT : Js.Error :=
  Js.Exception "Error" "ENOENT: no such file or directory".
Definition DocumentNotFound : Js.Error :=
  Js.Exception "DocumentNotFoundError" "No document found for query".
Definition DuplicateKey : Js.Error :=
  Js.Exception "MongoServerError" "E11000 duplicate key error".

Definition video_of_fields (id : string) (f : VideoFields) : Video :=
  mkVideo id (new_videoFile f) (new_thumbnail f) (new_title f) (new_description f)
          (new_duration f) (new_views f) (default "" (new_owner f)) (new_isPublished f).

(** The effect of a call that reached its target. *)
Definition effect (E : Env) (a : Action) (w : World) : (Js.Error + result a) * World :=
  match a return (Js.Error + result a) * World with
  | ProcessEnv name => (inr (process_env E !! name), w)
  | IsValidObjectId id => (inr (isValidObjectId E id), w)
  | JwtVerify token secret => (jwt_verify E token secret (clock w), w)
  | GenerateAccessToken u => (inr (generateAccessToken E u (clock w)), w)
  | GenerateRefreshToken u => (inr (generateRefreshToken E u (clock w)), w)
  | FsUnlinkSync path =>
      if decide (path ∈ files w)
      then (inr tt, log (FsUnlinkSync path, true) (set_files (files w ∖ {[path]}) w))
      else (inl ENOENT, log (FsUnlinkSync path, false) w)
  | UserFindById id => (inr (id ≫= λ i, users w !! i), w)
  | UserSave u =>
      match users w !! user_id u with
      | Some _ => (inr tt, log (UserSave u, true) (set_users (<[user_id u := u]> (users w)) w))
      | None => (inl DocumentNotFound, log (UserSave u, false) w)
      end
  | UserFindByIdAndUpdate id upd =>
      match id ≫= λ i, pair i <$> users w !! i with
      | Some (i, u) =>
          let u' := apply_user_update upd u in
          (inr (Some u'),
           log (UserFindByIdAndUpdate id upd, true) (set_users (<[i := u']> (users w)) w))
      | None => (inr None, log (UserFindByIdAndUpdate id upd, true) w)
      end
  | VideoFindById id => (inr (videos w !! id), w)
  | VideoFindByIdAndUpdate id upd =>
      match videos w !! id with
      | Some v =>
          let v' := apply_video_update upd v in
          (inr (Some v'),
           log (VideoFindByIdAndUpdate id upd, true) (set_videos (<[id := v']> (videos w)) w))
      | None => (inr None, log (VideoFindByIdAndUpdate id upd, true) w)
      end
  | VideoFindByIdAndDelete id =>
      (inr (videos w !! id),
       log (VideoFindByIdAndDelete id, true) (set_videos (delete id (videos w)) w))
  | VideoCreate f =>
      let id := new_object_id E (size (videos w)) in
      match videos w !! id with
      | Some _ => (inl DuplicateKey, log (VideoCreate f, false) w)
      | None =>
          let v := video_of_fields id f in
          (inr v, log (VideoCreate f, true) (set_videos (<[id := v]> (videos w)) w))
      end
  | CloudinaryUpload path =>
      let r := upload_response E path in
      (inr r, log (CloudinaryUpload path, true) (set_assets ({[public_id r]} ∪ assets w) w))
  | CloudinaryDestroy publicId resourceType =>
      (inr (if decide (publicId ∈ assets w) then "ok" else "not found"),
       log (CloudinaryDestroy publicId resourceType, true)
           (set_assets (assets w ∖ {[publicId]}) w))
  end.

Definition mutating (a : Action) : bool :=
  match a with
  | UserSave _ | UserFindByIdAndUpdate _ _ | VideoFindByIdAndUpdate _ _
  | VideoFindByIdAndDelete _ | VideoCreate _ | CloudinaryUpload _
  | CloudinaryDestroy _ _ => true
  | _ => false
  end.

(** A remote call either fails on the way (the promise rejects and nothing
    changes) or takes effect; a local call always takes effect. *)
Definition perform (E : Env) (a : Action) (w : World) : (Js.Error + result a) * World :=
  if is_async a then
    match fault E a with
    | Some e => (inl e, if mutating a then log (a, false) w else w)
    | None => effect E a w
    end
  else effect E a w.

(** One request, run to completion. *)
Fixpoint run {A} (E : Env) (p : Prog A) (w : World) : (Js.Error + A) * World :=
  match p with
  | Ret x => (inr x, w)
  | Throw e => (inl e, w)
  | Act a k => let '(r, w') := perform E a w in run E (k r) w'
  end.

(** ** Requests and responses *)

Record Request : Type := mkRequest {
  cookies : gmap string string;
  headers : gmap string string;
  body : gmap string string;
  params : gmap string string;
  file_path : option string;
  files_path : gmap string string;
  user : option User
}.

(** [req.user = u] *)
Definition attach (u : User) (req : Request) : Request :=
  mkRequest (cookies req) (headers req) (body req) (params req)
            (file_path req) (files_path req) (Some u).

Inductive Data : Type :=
| DataEmpty
| DataTokens (accessToken refreshToken : string)
| DataUser (u : option User)
| DataVideo (v : option Video).

Record ApiResponse : Type := mkApiResponse {
  statusCode : nat;
  data : Data;
  message : string
}.

(** [res.status(s).cookie(..).clearCookie(..).json(r)]; the cookie options
    (httpOnly, secure, sameSite) are the same constant everywhere and are left
    out. *)
Record Response : Type := mkResponse {
  status : nat;
  set_cookies : list (string * string);
  cleared_cookies : list string;
  json : ApiResponse
}.

Definition TypeError (msg : string) : Js.Error := Js.Exception "TypeError" msg.

(** [throw new ApiError(..)] when [b] holds. *)
Definition throw_if (b : bool) (e : Js.Error) : Prog unit :=
  if b then Throw e else Ret tt.

(** ** utils/cloudinary.js *)

Module Cloudinary.

Definition uploadOnCloudinary (localFilePath : option string)
  : Prog (option UploadResponse) :=
  try_catch
    (match localFilePath with
     | Some path =>
         if negb (Js.truthy localFilePath) then Ret None
         else
           response ← call (CloudinaryUpload path);
           call (FsUnlinkSync path);;
           Ret (Some response)
     | None => Ret None
     end)
    (λ _,
       match localFilePath with
       | Some path => call (FsUnlinkSync path);; Ret None
       | None => Throw (TypeError "The path argument must be of type string")
       end).

Definition publicId_of (fileUrl : string) : string :=
  let urlParts := Js.split "/" fileUrl in
  let publicIdWithExtension := Js.last_part urlParts in
  Js.first_part (Js.split "." publicIdWithExtension).

Definition resourceType_of (fileUrl : string) : string :=
  if Js.includes "/video/upload/" fileUrl then "video"
  else if Js.includes "/image/upload/" fileUrl then "image"
  else "auto".

(** The two [console.log] lines and the [console.error] of the handler are
    not modelled. *)
Definition deleteFromCloudinary (fileUrl : string) : Prog (option string) :=
  try_catch
    (if negb (Js.truthy (Some fileUrl)) then Ret None
     else
       let publicId := publicId_of fileUrl in
       let resourceType := resourceType_of fileUrl in
       result ← call (CloudinaryDestroy publicId resourceType);
       Ret (Some result))
    (λ _, Ret None).

(** The pattern every caller wraps around the delete of a replaced asset:
    [if (old) { try { await deleteFromCloudinary(old) } catch (e) { .. } }] *)
Definition delete_if_present (old : string) : Prog unit :=
  if Js.truthy (Some old)
  then try_catch (deleteFromCloudinary old;; Ret tt) (λ _, Ret tt)
  else Ret tt.

End Cloudinary.

(** ** controllers/user.controller.js *)

Module UserController.
Import Cloudinary.

Definition generateAccessAndRefreshToken (userId : string) : Prog (string * string) :=
  try_catch
    (found ← call (UserFindById (Some userId));
     match found with
     | None => Throw (TypeError "Cannot read properties of null (reading 'generateAccessToken')")
     | Some user =>
         accessToken ← call (GenerateAccessToken user);
         refreshToken ← call (GenerateRefreshToken user);
         let user := with_refreshToken (Some refreshToken) user in
         call (UserSave user);;
         Ret (accessToken, refreshToken)
     end)
    (λ _, Throw (Js.ApiError 500 " something went wrong while generating access and refresh token")).

Definition logoutUser (req : Request) : Prog Response :=
  match user req with
  | None => Throw (TypeError "Cannot read properties of undefined (reading '_id')")
  | Some u =>
      call (UserFindByIdAndUpdate (Some (user_id u)) UnsetRefreshToken);;
      Ret (mkResponse 200 [] ["accessToken"; "refreshToken"]
                      (mkApiResponse 200 DataEmpty "User Logged Out"))
  end.

Definition refreshAccessToken (req : Request) : Prog Response :=
  let incomingRefreshToken :=
    Js.or (cookies req !! "refreshToken") (body req !! "refreshToken") in
  match incomingRefreshToken with
  | Some token =>
      if negb (Js.truthy incomingRefreshToken)
      then Throw (Js.ApiError 401 "unauthorized request")
      else
        try_catch
          (secret ← call (ProcessEnv "REFRESH_TOKEN_SECRET");
           decodedToken ← call (JwtVerify token secret);
           found ← call (UserFindById (claim_id decodedToken));
           match found with
           | None => Throw (Js.ApiError 401 "Invalid refresh token")
           | Some user =>
               if decide (incomingRefreshToken ≠ user_refreshToken user)
               then Throw (Js.ApiError 401 "Refresh token is expired or used")
               else
                 '(accessToken, refreshToken) ← generateAccessAndRefreshToken (user_id user);
                 Ret (mkResponse 200
                        [("accessToken", accessToken); ("refreshToken", refreshToken)] []
                        (mkApiResponse 200 (DataTokens accessToken refreshToken)
                                       "Access token refreshed"))
           end)
          (λ error, Throw (Js.ApiError 401 (Js.message_or error "Invalid refresh token")))
  | None => Throw (Js.ApiError 401 "unauthorized request")
  end.

Definition updateUserAvatar (req : Request) : Prog Response :=
  let avatarLocalPath := file_path req in
  throw_if (negb (Js.truthy avatarLocalPath)) (Js.ApiError 400 "Avatar file is missing");;
  uploaded ← uploadOnCloudinary avatarLocalPath;
  match uploaded with
  | None => Throw (Js.ApiError 400 "Error while uploading avatar")
  | Some avatar =>
      throw_if (negb (Js.truthy (Some (secure_url avatar))))
               (Js.ApiError 400 "Error while uploading avatar");;
      match user req with
      | None => Throw (TypeError "Cannot read properties of undefined (reading 'avatar')")
      | Some current =>
          let oldAvatar := user_avatar current in
          updated ← call (UserFindByIdAndUpdate (Some (user_id current))
                                                (SetAvatar (secure_url avatar)));
          let user := select_no_password <$> updated in
          delete_if_present oldAvatar;;
          Ret (mkResponse 200 [] []
                 (mkApiResponse 200 (DataUser user) "Avatar image updated successfully"))
      end
  end.

Definition updateUserCoverImage (req : Request) : Prog Response :=
  let coverImageLocalPath := file_path req in
  throw_if (negb (Js.truthy coverImageLocalPath)) (Js.ApiError 400 "Cover image file is missing");;
  uploaded ← uploadOnCloudinary coverImageLocalPath;
  match uploaded with
  | None => Throw (Js.ApiError 400 "Error while uploading cover image")
  | Some coverImage =>
      throw_if (negb (Js.truthy (Some (secure_url coverImage))))
               (Js.ApiError 400 "Error while uploading cover image");;
      match user req with
      | None => Throw (TypeError "Cannot read properties of undefined (reading 'coverImage')")
      | Some current =>
          let oldCoverImage := user_coverImage current in
          updated ← call (UserFindByIdAndUpdate (Some (user_id current))
                                                (SetCoverImage (secure_url coverImage)));
          let user := select_no_password <$> updated in
          delete_if_present oldCoverImage;;
          Ret (mkResponse 200 [] []
                 (mkApiResponse 200 (DataUser user) "Cover image updated successfully"))
      end
  end.

End UserController.

(** ** The auth middlewares

    A middleware returns the request it hands to [next()]; a throw is the
    error [asyncHandler] forwards instead. *)

(** src/middlewares/auth.middleware.js.  [jwt.verifyJWT] is not a function of
    jsonwebtoken (it exports [sign], [verify] and [decode]), so the call
    raises a [TypeError] once its argument has been evaluated. *)
Module AuthMiddleware.

Definition verifyJWT (req : Request) : Prog Request :=
  try_catch
    (let token :=
       Js.or (cookies req !! "accessToken")
             (Js.replace "bearer " "" <$> headers req !! "Authorization") in
     throw_if (negb (Js.truthy token)) (Js.ApiError 401 "unauthorized request");;
     call (ProcessEnv "ACCESS_TOKEN_SECRET");;
     decodedToken ← (Throw (TypeError "jwt.verifyJWT is not a function") : Prog Claims);
     found ← call (UserFindById (claim_id decodedToken));
     match select_public <$> found with
     | None => Throw (Js.ApiError 401 "invalid access token")
     | Some u => Ret (attach u req)
     end)
    (λ error, Throw (Js.ApiError 401 (Js.message_or error "Invalid Access Token"))).

End AuthMiddleware.

(** The auth.middleware.js whose imports are user.model.js, as the
    controllers' are (unnamed/part_001). *)
Module AuthMiddleware1.

Definition verifyJWT (req : Request) : Prog Request :=
  try_catch
    (let token :=
       Js.or (cookies req !! "accessToken")
             (Js.replace "Bearer " "" <$> headers req !! "Authorization") in
     throw_if (negb (Js.truthy token)) (Js.ApiError 401 "Unauthorized request");;
     secret ← call (ProcessEnv "ACCESS_TOKEN_SECRET");
     decodedToken ← call (JwtVerify (default "" token) secret);
     found ← call (UserFindById (claim_id decodedToken));
     match select_public <$> found with
     | None => Throw (Js.ApiError 401 "Invalid Access Token")
     | Some u => Ret (attach u req)
     end)
    (λ error, Throw (Js.ApiError 401 (Js.message_or error "Invalid Access Token"))).

End AuthMiddleware1.

(** middlewares/auth.optional.middleware.js (unnamed/part_000) *)
Module AuthOptionalMiddleware.

Definition verifyJWTOptional (req : Request) : Prog Request :=
  req' ← try_catch
           (let token :=
              Js.or (cookies req !! "accessToken")
                    (Js.replace "Bearer " "" <$> headers req !! "Authorization") in
            if negb (Js.truthy token) then Ret req
            else
              secret ← call (ProcessEnv "ACCESS_TOKEN_SECRET");
              decodedToken ← call (JwtVerify (default "" token) secret);
              found ← call (UserFindById (claim_id decodedToken));
              match select_public <$> found with
              | Some u => Ret (attach u req)
              | None => Ret req
              end)
           (λ _, Ret req);
  Ret req'.

End AuthOptionalMiddleware.

(** ** controllers/video.controller.js *)

(** [video.owner.toString() !== req.user?._id.toString()]: with no user the
    optional chain is [undefined], which differs from every string. *)
Definition not_owner (v : Video) (req : Request) : bool :=
  match user req with
  | Some u => negb (String.eqb (video_owner v) (user_id u))
  | None => true
  end.

(** [isValidObjectId(req.params.videoId)] *)
Definition valid_videoId (req : Request) : Prog bool :=
  match params req !! "videoId" with
  | Some id => call (IsValidObjectId id)
  | None => Ret false
  end.

(** [if (x) updateData.key = x] *)
Definition if_truthy (v : option string) : option string :=
  if Js.truthy v then v else None.

(** The controller that imports video.model.js (lines 1 to 417). *)
Module VideoController.
Import Cloudinary.

(** [Video.create] resolves to the document or rejects, so the check
    [if (!video)] after it never fires and is left out. *)
Definition publishAVideo (req : Request) : Prog Response :=
  let title := body req !! "title" in
  let description := body req !! "description" in
  throw_if (negb (Js.truthy title) || negb (Js.truthy description))
           (Js.ApiError 400 "Title and description are required");;
  let videoFileLocalPath := files_path req !! "videoFile" in
  let thumbnailLocalPath := files_path req !! "thumbnail" in
  throw_if (negb (Js.truthy videoFileLocalPath)) (Js.ApiError 400 "Video file is required");;
  throw_if (negb (Js.truthy thumbnailLocalPath)) (Js.ApiError 400 "Thumbnail is required");;
  videoFile ← uploadOnCloudinary videoFileLocalPath;
  thumbnail ← uploadOnCloudinary thumbnailLocalPath;
  match videoFile, thumbnail with
  | None, _ => Throw (Js.ApiError 500 "Video file upload failed")
  | Some _, None => Throw (Js.ApiError 500 "Thumbnail upload failed")
  | Some videoFile, Some thumbnail =>
      video ← call (VideoCreate
                      (mkVideoFields (default "" title) (default "" description)
                                     (duration videoFile) (secure_url videoFile)
                                     (secure_url thumbnail) 0 (user_id <$> user req) true));
      Ret (mkResponse 201 [] []
             (mkApiResponse 201 (DataVideo (Some video)) "Video uploaded successfully"))
  end.

Definition updateVideo (req : Request) : Prog Response :=
  let videoId := default "" (params req !! "videoId") in
  let title := body req !! "title" in
  let description := body req !! "description" in
  let thumbnailLocalPath := file_path req in
  valid ← valid_videoId req;
  throw_if (negb valid) (Js.ApiError 400 "Invalid videoId");;
  found ← call (VideoFindById videoId);
  match found with
  | None => Throw (Js.ApiError 404 "No video found")
  | Some video =>
      throw_if (not_owner video req)
               (Js.ApiError 403 "You can't edit this video as you are not the owner");;
      let updateData := mkVideoUpdate (if_truthy title) (if_truthy description) None in
      updateData ←
        (if Js.truthy thumbnailLocalPath then
           let oldThumbnailUrl := video_thumbnail video in
           uploaded ← uploadOnCloudinary thumbnailLocalPath;
           match uploaded with
           | None => Throw (TypeError "Cannot read properties of null (reading 'secure_url')")
           | Some thumbnail =>
               throw_if (negb (Js.truthy (Some (secure_url thumbnail))))
                        (Js.ApiError 400 "Error while uploading thumbnail");;
               let updateData :=
                 mkVideoUpdate (upd_title updateData) (upd_description updateData)
                               (Some (secure_url thumbnail)) in
               delete_if_present oldThumbnailUrl;;
               Ret updateData
           end
         else Ret updateData);
      updatedVideo ← call (VideoFindByIdAndUpdate videoId updateData);
      throw_if (bool_decide (updatedVideo = None))
               (Js.ApiError 500 "Failed to update video details");;
      Ret (mkResponse 200 [] []
             (mkApiResponse 200 (DataVideo updatedVideo) "Video details updated successfully"))
  end.

(** The same text in both controllers (lines 321 to 373 and 762 to 814). *)
Definition deleteVideo (req : Request) : Prog Response :=
  valid ← valid_videoId req;
  throw_if (negb valid) (Js.ApiError 400 "Invalid videoId");;
  found ← call (VideoFindById (default "" (params req !! "videoId")));
  match found with
  | None => Throw (Js.ApiError 404 "No video found")
  | Some video =>
      throw_if (not_owner video req)
               (Js.ApiError 400 "You can't delete this video as you are not the owner");;
      delete_if_present (video_videoFile video);;
      delete_if_present (video_thumbnail video);;
      videoDeleted ← call (VideoFindByIdAndDelete (video_id video));
      throw_if (bool_decide (videoDeleted = None))
               (Js.ApiError 400 "Failed to delete the video please try again");;
      Ret (mkResponse 200 [] []
             (mkApiResponse 200 DataEmpty "Video deleted successfully"))
  end.

End VideoController.

(** The controller that imports video.models.js (lines 417 to 865). *)
Module VideoController2.
Import Cloudinary.

Definition publishAVideo (req : Request) : Prog Response :=
  let title := body req !! "title" in
  let description := body req !! "description" in
  throw_if (negb (Js.truthy title) || negb (Js.truthy description))
           (Js.ApiError 400 "Title and description are required");;
  let videoFileLocalPath := files_path req !! "videoFile" in
  let thumbnailLocalPath := files_path req !! "thumbnail" in
  throw_if (negb (Js.truthy videoFileLocalPath)) (Js.ApiError 400 "Video file is required");;
  throw_if (negb (Js.truthy thumbnailLocalPath)) (Js.ApiError 400 "Thumbnail is required");;
  videoFile ← uploadOnCloudinary videoFileLocalPath;
  thumbnail ← uploadOnCloudinary thumbnailLocalPath;
  match videoFile, thumbnail with
  | None, _ => Throw (Js.ApiError 400 "Video file upload failed")
  | Some _, None => Throw (Js.ApiError 400 "Thumbnail upload failed")
  | Some videoFile, Some thumbnail =>
      video ← call (VideoCreate
                      (mkVideoFields (default "" title) (default "" description)
                                     (duration videoFile) (url videoFile)
                                     (url thumbnail) 0 (user_id <$> user req) false));
      videoUploaded ← call (VideoFindById (video_id video));
      throw_if (bool_decide (videoUploaded = None))
               (Js.ApiError 500 "Video upload failed please try again");;
      Ret (mkResponse 201 [] []
             (mkApiResponse 200 (DataVideo videoUploaded) "Video uploaded successfully"))
  end.

Definition deleteVideo : Request → Prog Response := VideoController.deleteVideo.

End VideoController2.

(** ** The user routes

    The router that follows the controllers in video.controller.js (lines 865
    to 914) puts [verifyJWT] in front of the handlers that need a signed-in
    user; [/refreshToken] is served without it.  It imports [{ verifyJWT }]
    from middlewares/auth.middleware.js; of the two texts of that file, the
    one taken here is the one that reads the same user model as the user
    controller (user.model.js, unnamed/part_001) and calls [jwt.verify]. *)
Module UserRoutes.

(** [router.route("/logout").post(verifyJWT, logoutUser)] *)
Definition logout (req : Request) : Prog Response :=
  AuthMiddleware1.verifyJWT req ≫= UserController.logoutUser.

End UserRoutes.

(** ** Two requests in flight

    A request runs until it awaits; the call it awaits takes effect when the
    request is resumed, which then runs on to its next [await]. *)

Fixpoint advance {A} (E : Env) (p : Prog A) (w : World) : Prog A * World :=
  match p with
  | Act a k =>
      if is_async a then (p, w)
      else let '(r, w') := perform E a w in advance E (k r) w'
  | _ => (p, w)
  end.

Definition resume {A} (E : Env) (p : Prog A) (w : World) : Prog A * World :=
  match p with
  | Act a k => let '(r, w') := perform E a w in advance E (k r) w'
  | _ => (p, w)
  end.

Inductive Turn : Type :=
| First
| Second
| Wait (seconds : nat).

Fixpoint interleave {A B} (E : Env) (sched : list Turn)
    (p : Prog A) (q : Prog B) (w : World) : Prog A * Prog B * World :=
  match sched with
  | [] => (p, q, w)
  | First :: rest => let '(p', w') := resume E p w in interleave E rest p' q w'
  | Second :: rest => let '(q', w') := resume E q w in interleave E rest p q' w'
  | Wait n :: rest => interleave E rest p q (tick n w)
  end.

(** What a finished request produced. *)
Definition outcome {A} (p : Prog A) : option (Js.Error + A) :=
  match p with
  | Ret x => Some (inr x)
  | Throw e => Some (inl e)
  | Act _ _ => None
  end.


(** ** Reading traces *)

Definition events_since (w w' : World) : list Event :=
  drop (length (trace w)) (trace w').

Definition is_unlink (path : string) (ev : Event) : bool :=
  match ev.1 with
  | FsUnlinkSync p => String.eqb p path
  | _ => false
  end.

Definition is_destroy (ev : Event) : bool :=
  match ev.1 with
  | CloudinaryDestroy _ _ => true
  | _ => false
  end.

(** How many times [fs.unlinkSync(path)] was called. *)
Definition unlink_count (path : string) (evs : list Event) : nat :=
  length (List.filter (is_unlink path) evs).

(** A write that put a new asset reference on its record. *)
Definition is_persist (ev : Event) : bool :=
  match ev with
  | (UserFindByIdAndUpdate _ (SetAvatar _), true)
  | (UserFindByIdAndUpdate _ (SetCoverImage _), true) => true
  | (VideoFindByIdAndUpdate _ upd, true) => bool_decide (is_Some (upd_thumbnail upd))
  | _ => false
  end.

(** Every Cloudinary delete in [evs] comes after a persisting write
    ([persisted] tells whether one came before [evs]). *)
Fixpoint deletes_follow_persist (persisted : bool) (evs : list Event) : bool :=
  match evs with
  | [] => true
  | ev :: rest =>
      if is_destroy ev then persisted && deletes_follow_persist persisted rest
      else deletes_follow_persist (persisted || is_persist ev) rest
  end.

(** [a] occurs in [evs] strictly before [b]. *)
Definition occurs_before (a b : Event) (evs : list Event) : Prop :=
  ∃ l1 l2 l3 : list Event, evs = (l1 ++ a :: l2 ++ b :: l3)%list.

(** A status of the 4xx class (the caller's fault) or of the 5xx class. *)
Definition client_error (e : Js.Error) : bool :=
  match e with
  | Js.ApiError s _ => ((400 <=? s) && (s <? 500))%nat
  | Js.Exception _ _ => false
  end.

Definition server_error (e : Js.Error) : bool :=
  match e with
  | Js.ApiError s _ => ((500 <=? s) && (s <? 600))%nat
  | Js.Exception _ _ => true
  end.

(** ** Worlds and answers the properties speak of *)

(** The world after the upload call and the unlink that follows it. *)
Definition after_upload (E : Env) (path : string) (w : World) : World :=
  match fault E (CloudinaryUpload path) with
  | None =>
      let r := upload_response E path in
      log (FsUnlinkSync path, true)
          (set_files (files w ∖ {[path]})
             (log (CloudinaryUpload path, true)
                  (set_assets ({[public_id r]} ∪ assets w) w)))
  | Some _ =>
      log (FsUnlinkSync path, true)
          (set_files (files w ∖ {[path]}) (log (CloudinaryUpload path, false) w))
  end.

(** What [uploadOnCloudinary] returns for a staged file. *)
Definition upload_result (E : Env) (path : string) : option UploadResponse :=
  match fault E (CloudinaryUpload path) with
  | None => Some (upload_response E path)
  | Some _ => None
  end.

(** The world after [delete_if_present url]. *)
Definition after_delete (E : Env) (fileUrl : string) (w : World) : World :=
  if Js.truthy (Some fileUrl) then
    let a := CloudinaryDestroy (Cloudinary.publicId_of fileUrl) (Cloudinary.resourceType_of fileUrl) in
    match fault E a with
    | Some _ => log (a, false) w
    | None => log (a, true) (set_assets (assets w ∖ {[Cloudinary.publicId_of fileUrl]}) w)
    end
  else w.

(** The Cloudinary call [delete_if_present] makes, if any. *)
Definition destroy_events (E : Env) (fileUrl : string) : list Event :=
  if Js.truthy (Some fileUrl) then
    let a := CloudinaryDestroy (Cloudinary.publicId_of fileUrl) (Cloudinary.resourceType_of fileUrl) in
    [(a, bool_decide (fault E a = None))]
  else [].

(** What a request that failed at the upload leaves behind. *)
Definition failed_at_upload {A} (path : string) (w : World)
    (res : (Js.Error + A) * World) : Prop :=
  (∃ e, res.1 = inl e)
  ∧ users res.2 = users w
  ∧ videos res.2 = videos w
  ∧ Forall (λ ev, is_destroy ev = false) (events_since w res.2)
  ∧ path ∉ files res.2.

(** The world after a successful [user.save()]. *)
Definition saved (u : User) (w : World) : World :=
  log (UserSave u, true) (set_users (<[user_id u := u]> (users w)) w).

(** The token [refreshAccessToken] reads from the request. *)
Definition incoming (req : Request) : option string :=
  Js.or (cookies req !! "refreshToken") (body req !! "refreshToken").

(** The token the auth middlewares read from the request. *)
Definition presented (req : Request) : option string :=
  Js.or (cookies req !! "accessToken")
        (Js.replace "Bearer " "" <$> headers req !! "Authorization").

(** The answers of [refreshAccessToken], [logoutUser] and [deleteVideo]. *)
Definition refreshed (accessToken refreshToken : string) : Response :=
  mkResponse 200 [("accessToken", accessToken); ("refreshToken", refreshToken)] []
             (mkApiResponse 200 (DataTokens accessToken refreshToken) "Access token refreshed").

Definition logged_out : Response :=
  mkResponse 200 [] ["accessToken"; "refreshToken"]
             (mkApiResponse 200 DataEmpty "User Logged Out").

Definition deleted_response : Response :=
  mkResponse 200 [] [] (mkApiResponse 200 DataEmpty "Video deleted successfully").



(** The character [c] occurs in [s]. *)
Fixpoint occurs (c : Ascii.ascii) (s : string) : bool :=
  match s with
  | EmptyString => false
  | String a s' => Ascii.eqb a c || occurs c s'
  end.

(** The user a middleware attached to the request, or the error it threw. *)
Definition principal_of (res : (Js.Error + Request) * World) : Js.Error + option User :=
  match res.1 with
  | inl e => inl e
  | inr req => inr (user req)
  end.

(** What [updateVideo] answers. *)
Definition video_updated (v : Video) : Response :=
  mkResponse 200 [] []
    (mkApiResponse 200 (DataVideo (Some v)) "Video details updated successfully").

(** What [publishAVideo] answers: always HTTP 201, with the status code the
    body repeats. *)
Definition published (statusCode : nat) (v : Video) : Response :=
  mkResponse 201 [] []
    (mkApiResponse statusCode (DataVideo (Some v)) "Video uploaded successfully").

(** ** A concrete deployment to evaluate the handlers on *)

Module Demo.

Fixpoint unary (n : nat) : string :=
  match n with
  | O => EmptyString
  | S n' => String "i" (unary n')
  end.

(** Modelled from the spec: the token methods of the user model
    (models/user.model.js is not among the sources) and the signing primitive
    behind them.  A token is signed, carries the principal identifier and has
    a fixed expiry: here it names the key it was signed with, its subject and
    its expiry, and [verify] accepts it under that key until that time. *)
Definition sign (secret id : string) (expiry : nat) : string :=
  secret +:+ "." +:+ id +:+ "." +:+ unary expiry.

Definition verify (token : string) (secret : option string) (now : nat)
  : Js.Error + Claims :=
  match secret, Js.split "." token with
  | Some key, [key'; id; expiry] =>
      if negb (String.eqb key key')
      then inl (Js.Exception "JsonWebTokenError" "invalid signature")
      else if String.length expiry <=? now
           then inl (Js.Exception "TokenExpiredError" "jwt expired")
           else inr (mkClaims (Some id))
  | Some _, _ => inl (Js.Exception "JsonWebTokenError" "jwt malformed")
  | None, _ => inl (Js.Exception "Error" "secret or public key must be provided")
  end.

Definition uploaded (path : string) : UploadResponse :=
  mkUploadResponse ("http://cdn.test/image/upload/" +:+ path)
                   ("https://cdn.test/image/upload/" +:+ path) 0 path.

Definition env (fault : Action → option Js.Error) : Env :=
  mkEnv {[ "ACCESS_TOKEN_SECRET" := "akey"; "REFRESH_TOKEN_SECRET" := "rkey" ]}
        (λ id, negb (String.eqb id ""))
        verify
        (λ u now, sign "akey" (user_id u) (now + 3))
        (λ u now, sign "rkey" (user_id u) (now + 10))
        uploaded
        (λ n, "v" +:+ unary n)
        fault.

Definition reliable : Env := env (λ _, None).

Definition Unreachable : Js.Error := Js.Exception "Error" "connect ETIMEDOUT".

(** Every upload to Cloudinary fails. *)
Definition uploads_fail : Env :=
  env (λ a, match a with CloudinaryUpload _ => Some Unreachable | _ => None end).

(** The database refuses to delete. *)
Definition deletes_fail : Env :=
  env (λ a, match a with VideoFindByIdAndDelete _ => Some Unreachable | _ => None end).

Definition old_avatar : string := "https://cdn.test/image/upload/old.jpg".

Definition alice : User :=
  mkUser "u1" "alice" "alice@example.org" "Alice" old_avatar ""
         (Some "$2b$10$hash") (Some (sign "rkey" "u1" 10)).

Definition clip : Video :=
  mkVideo "v1" "https://cdn.test/video/upload/clip.mp4"
          "https://cdn.test/image/upload/thumb.jpg" "Clip" "A clip" 12 0 "u1" true.

Definition world : World :=
  mkWorld {[ "u1" := alice ]} {[ "v1" := clip ]} {[ "tmp/upload.jpg" ]}
          {[ "old"; "clip"; "thumb" ]} 0 [].

Definition request : Request := mkRequest ∅ ∅ ∅ ∅ None ∅ None.

Definition with_cookie (name value : string) (req : Request) : Request :=
  mkRequest (<[name := value]> (cookies req)) (headers req) (body req) (params req)
            (file_path req) (files_path req) (user req).

Definition with_param (name value : string) (req : Request) : Request :=
  mkRequest (cookies req) (headers req) (body req) (<[name := value]> (params req))
            (file_path req) (files_path req) (user req).

Definition with_file (path : string) (req : Request) : Request :=
  mkRequest (cookies req) (headers req) (body req) (params req)
            (Some path) (files_path req) (user req).

Definition with_body (name value : string) (req : Request) : Request :=
  mkRequest (cookies req) (headers req) (<[name := value]> (body req)) (params req)
            (file_path req) (files_path req) (user req).

Definition with_files (name path : string) (req : Request) : Request :=
  mkRequest (cookies req) (headers req) (body req) (params req)
            (file_path req) (<[name := path]> (files_path req)) (user req).

Definition signed_in (req : Request) : Request := attach (select_public alice) req.

(** PATCH /avatar, /coverImage and /:videoId with one staged image. *)
Definition image_request : Request := with_file "tmp/upload.jpg" (signed_in request).

Definition thumbnail_request : Request := with_param "videoId" "v1" image_request.

(** POST /videos with a staged video and a staged thumbnail. *)
Definition publish_request : Request :=
  with_files "thumbnail" "tmp/thumb.jpg"
    (with_files "videoFile" "tmp/clip.mp4"
       (with_body "description" "A new clip" (with_body "title" "New" (signed_in request)))).

Definition studio : World :=
  mkWorld {[ "u1" := alice ]} ∅ {[ "tmp/clip.mp4"; "tmp/thumb.jpg" ]} ∅ 0 [].

(** DELETE /:videoId *)
Definition delete_request : Request := with_param "videoId" "v1" (signed_in request).

(** POST /refreshToken with the stored refresh token in its cookie. *)
Definition rotate_request : Request :=
  with_cookie "refreshToken" (sign "rkey" "u1" 10) request.

(** POST /logout, behind the auth middleware. *)
Definition logout_request : Request := signed_in request.

(** A request that carries the access token minted for alice at time 0. *)
Definition access_request : Request :=
  with_cookie "accessToken" (sign "akey" "u1" 3) request.


(** The database refuses to update a video. *)
Definition updates_fail : Env :=
  env (λ a, match a with VideoFindByIdAndUpdate _ _ => Some Unreachable | _ => None end).

(** [req.header(name)] *)
Definition with_header (name value : string) (req : Request) : Request :=
  mkRequest (cookies req) (<[name := value]> (headers req)) (body req) (params req)
            (file_path req) (files_path req) (user req).

(** The access token of [access_request], sent in a header instead. *)
Definition bearer_request : Request :=
  with_header "Authorization" ("Bearer " +:+ sign "akey" "u1" 3) request.

Definition bob : User :=
  mkUser "u2" "bob" "bob@example.org" "Bob" "" "" (Some "$2b$10$hash") None.

(** PATCH or DELETE /:videoId by a user who does not own the video. *)
Definition intruder_request : Request :=
  with_param "videoId" "v1" (with_file "tmp/upload.jpg" (attach (select_public bob) request)).

(** DELETE /:videoId for a video nobody stored. *)
Definition unknown_request : Request := with_param "videoId" "v9" (signed_in request).

(** PATCH /:videoId with a new title and no thumbnail. *)
Definition rename_request : Request := with_body "title" "Renamed" delete_request.

(** The database refuses to update a user. *)
Definition user_updates_fail : Env :=
  env (λ a, match a with UserFindByIdAndUpdate _ _ => Some Unreachable | _ => None end).

(** The database refuses to save a user. *)
Definition saves_fail : Env :=
  env (λ a, match a with UserSave _ => Some Unreachable | _ => None end).

(** Cloudinary refuses the video file and takes everything else. *)
Definition video_upload_fails : Env :=
  env (λ a, match a with
            | CloudinaryUpload path =>
                if String.eqb path "tmp/clip.mp4" then Some Unreachable else None
            | _ => None
            end).

End Demo.

(** * Properties *)

(** ** The helpers on strings *)

Example includes_video :
  Js.includes "/video/upload/" "http://res.cloudinary.com/demo/video/upload/v1/clip.mp4" = true.
Proof. reflexivity. Qed.

Example replace_bearer : Js.replace "Bearer " "" "Bearer abc.def" = "abc.def".
Proof. reflexivity. Qed.

Example replace_absent : Js.replace "bearer " "" "Bearer abc.def" = "Bearer abc.def".
Proof. reflexivity. Qed.

Example split_url :
  Js.split "/"%char "http://h/image/upload/v1/old.jpg" = ["http:"; ""; "h"; "image"; "upload"; "v1"; "old.jpg"].
Proof. reflexivity. Qed.

Example publicId_of_url :
  Cloudinary.publicId_of "http://res.cloudinary.com/demo/image/upload/v1/old.jpg" = "old".
Proof. reflexivity. Qed.

Example resourceType_of_url :
  Cloudinary.resourceType_of "http://res.cloudinary.com/demo/image/upload/v1/old.jpg" = "image".
Proof. reflexivity. Qed.

(** ** How programs run *)

Section Running.
Context (E : Env).

Lemma run_bind {A B} (p : Prog A) (f : A → Prog B) (w : World) :
  run E (p ≫= f) w =
  match run E p w with
  | (inr x, w') => run E (f x) w'
  | (inl e, w') => (inl e, w')
  end.
Proof.
  change (p ≫= f) with (bind p f).
  revert w; induction p as [x | e | a k IH]; intros w; simpl; try done.
  destruct (perform E a w) as [r w']. apply IH.
Qed.

Lemma run_try_catch {A} (p : Prog A) (h : Js.Error → Prog A) (w : World) :
  run E (try_catch p h) w =
  match run E p w with
  | (inr x, w') => (inr x, w')
  | (inl e, w') => run E (h e) w'
  end.
Proof.
  revert w; induction p as [x | e | a k IH]; intros w; simpl; try done.
  destruct (perform E a w) as [r w']. apply IH.
Qed.

Lemma run_call (a : Action) (w : World) : run E (call a) w = perform E a w.
Proof.
  unfold call; simpl. destruct (perform E a w) as [[e | x] w']; done.
Qed.

Lemma run_throw_if (b : bool) (e : Js.Error) (w : World) :
  run E (throw_if b e) w = (if b then inl e else inr tt, w).
Proof. by destruct b. Qed.

Lemma run_pass {A} (e : Js.Error) (f : unit → Prog A) (w : World) :
  run E (throw_if false e ≫= f) w = run E (f tt) w.
Proof. reflexivity. Qed.

Lemma run_stop {A} (e : Js.Error) (f : unit → Prog A) (w : World) :
  run E (throw_if true e ≫= f) w = (inl e, w).
Proof. reflexivity. Qed.

(** The trace only grows. *)
Lemma perform_trace (a : Action) (w : World) :
  ∃ evs, trace (perform E a w).2 = trace w ++ evs
         ∧ Forall (λ ev, ev.1 = a) evs.
Proof.
  unfold perform.
  assert (∃ evs, trace (effect E a w).2 = trace w ++ evs ∧ Forall (λ ev, ev.1 = a) evs)
    as Heff.
  { destruct a; simpl;
      repeat first [ case_decide | case_match ]; simpl;
      first [ by (exists []; rewrite app_nil_r)
            | by (eexists [_]; split; [reflexivity | by repeat constructor]) ]. }
  destruct (is_async a); [| done].
  destruct (fault E a); [| done]; simpl.
  destruct (mutating a); simpl.
  - eexists [_]; split; [reflexivity | by repeat constructor].
  - exists []; by rewrite app_nil_r.
Qed.

Lemma run_trace {A} (p : Prog A) (w : World) :
  ∃ evs, trace (run E p w).2 = trace w ++ evs.
Proof.
  revert w; induction p as [x | e | a k IH]; intros w; simpl.
  - exists []; by rewrite app_nil_r.
  - exists []; by rewrite app_nil_r.
  - destruct (perform_trace a w) as (evs & Hevs & _).
    destruct (perform E a w) as [r w']; simpl in *.
    destruct (IH r w') as (evs' & Hevs').
    exists (evs ++ evs'). by rewrite Hevs', Hevs, app_assoc.
Qed.

Lemma events_since_app (w w' : World) (evs : list Event) :
  trace w' = trace w ++ evs → events_since w w' = evs.
Proof. unfold events_since; intros ->. by rewrite drop_app_length. Qed.

End Running.

(** ** Deletes and persisting writes in a trace *)

Lemma deletes_follow_persist_true (evs : list Event) :
  deletes_follow_persist true evs = true.
Proof. induction evs as [| ev evs IH]; simpl; [done |]. by destruct (is_destroy ev). Qed.

Lemma deletes_follow_persist_cons (b : bool) (ev : Event) (evs : list Event) :
  is_destroy ev = false →
  deletes_follow_persist b (ev :: evs) = deletes_follow_persist (b || is_persist ev) evs.
Proof. intros H; simpl. by rewrite H. Qed.

Lemma deletes_follow_persist_destroy (ev : Event) (evs : list Event) :
  is_destroy ev = true → deletes_follow_persist false (ev :: evs) = false.
Proof. intros H; simpl. by rewrite H. Qed.

(** ** The staged upload (utils/cloudinary.js) *)

Section StagedUpload.
Context (E : Env).
Import Cloudinary.

Lemma truthy_Some (s : string) : s ≠ "" → Js.truthy (Some s) = true.
Proof.
  intros Hs; simpl. destruct (String.eqb_spec s ""); [done | reflexivity].
Qed.

Lemma truthy_Some_inv (v : option string) :
  Js.truthy v = true → ∃ s, v = Some s ∧ s ≠ "".
Proof.
  destruct v as [s |]; simpl; [| done].
  destruct (String.eqb_spec s ""); [done |]. eauto.
Qed.

Lemma perform_unlink (path : string) (w : World) :
  path ∈ files w →
  perform E (FsUnlinkSync path) w =
  (inr tt, log (FsUnlinkSync path, true) (set_files (files w ∖ {[path]}) w)).
Proof. intros Hin; unfold perform; simpl. by rewrite decide_True. Qed.

Lemma uploadOnCloudinary_run (path : string) (w : World) :
  path ≠ "" → path ∈ files w →
  run E (uploadOnCloudinary (Some path)) w = (inr (upload_result E path), after_upload E path w).
Proof.
  intros Hne Hin. unfold uploadOnCloudinary, upload_result, after_upload.
  rewrite truthy_Some by done. simpl.
  unfold perform at 1; simpl.
  destruct (fault E (CloudinaryUpload path)) as [e |]; simpl.
  - by rewrite perform_unlink.
  - by rewrite perform_unlink.
Qed.

Lemma after_upload_trace (path : string) (w : World) :
  trace (after_upload E path w) =
  trace w ++ [(CloudinaryUpload path, bool_decide (fault E (CloudinaryUpload path) = None));
              (FsUnlinkSync path, true)].
Proof.
  unfold after_upload. destruct (fault E (CloudinaryUpload path)); simpl;
    by rewrite <- app_assoc.
Qed.

Lemma after_upload_files (path : string) (w : World) :
  files (after_upload E path w) = files w ∖ {[path]}.
Proof. unfold after_upload. by destruct (fault E (CloudinaryUpload path)). Qed.

Lemma after_upload_users (path : string) (w : World) :
  users (after_upload E path w) = users w ∧ videos (after_upload E path w) = videos w
  ∧ clock (after_upload E path w) = clock w.
Proof. unfold after_upload. by destruct (fault E (CloudinaryUpload path)). Qed.

(** C4.  When [uploadOnCloudinary] is called with the path of a staged file,
    it returns normally whether the upload succeeded or failed, it has
    called [fs.unlinkSync] on that path exactly once, and the file is gone. *)
Theorem uploadOnCloudinary_unlinks_exactly_once (path : string) (w : World) :
  path ≠ "" → path ∈ files w →
  ∃ r w',
    run E (uploadOnCloudinary (Some path)) w = (inr r, w')
    ∧ (is_Some r ↔ fault E (CloudinaryUpload path) = None)
    ∧ unlink_count path (events_since w w') = 1
    ∧ (FsUnlinkSync path, true) ∈ events_since w w'
    ∧ path ∉ files w'.
Proof.
  intros Hne Hin. eexists _, _. split; [by apply uploadOnCloudinary_run |].
  rewrite (events_since_app _ _ _ (after_upload_trace path w)).
  rewrite after_upload_files.
  repeat split.
  - unfold upload_result. destruct (fault E (CloudinaryUpload path)); [by intros [? ?] | done].
  - unfold upload_result. destruct (fault E (CloudinaryUpload path)); [done | eauto].
  - unfold unlink_count, is_unlink; simpl. by rewrite String.eqb_refl.
  - constructor 2; constructor 1.
  - intros [_ Hn]%elem_of_difference. apply Hn. by apply elem_of_singleton.
Qed.

End StagedUpload.

Lemma uploadOnCloudinary_unlinks_exactly_once_witness :
  ∃ r w',
    run Demo.uploads_fail (Cloudinary.uploadOnCloudinary (Some "tmp/upload.jpg")) Demo.world
      = (inr r, w')
    ∧ (is_Some r ↔ fault Demo.uploads_fail (CloudinaryUpload "tmp/upload.jpg") = None)
    ∧ unlink_count "tmp/upload.jpg" (events_since Demo.world w') = 1
    ∧ (FsUnlinkSync "tmp/upload.jpg", true) ∈ events_since Demo.world w'
    ∧ "tmp/upload.jpg" ∉ files w'.
Proof.
  apply (uploadOnCloudinary_unlinks_exactly_once Demo.uploads_fail "tmp/upload.jpg" Demo.world).
  - discriminate.
  - vm_compute. reflexivity.
Defined.

(** ** Replacing an asset (avatar, cover image) *)

Section ReplaceAsset.
Context (E : Env).
Import Cloudinary UserController.

Lemma delete_if_present_run (fileUrl : string) (w : World) :
  run E (delete_if_present fileUrl) w = (inr tt, after_delete E fileUrl w).
Proof.
  unfold delete_if_present, after_delete, deleteFromCloudinary.
  destruct (Js.truthy (Some fileUrl)); [| done]. simpl.
  unfold perform; simpl.
  by destruct (fault E (CloudinaryDestroy _ _)).
Qed.

Lemma after_delete_frame (fileUrl : string) (w : World) :
  users (after_delete E fileUrl w) = users w
  ∧ videos (after_delete E fileUrl w) = videos w
  ∧ files (after_delete E fileUrl w) = files w.
Proof.
  unfold after_delete. destruct (Js.truthy _); [| done].
  by destruct (fault E _).
Qed.

Lemma after_delete_trace (fileUrl : string) (w : World) :
  ∃ ds, trace (after_delete E fileUrl w) = trace w ++ ds
        ∧ Forall (λ ev, is_destroy ev = true) ds
        ∧ (Js.truthy (Some fileUrl) = true → length ds = 1)
        ∧ (Js.truthy (Some fileUrl) = false → ds = []).
Proof.
  unfold after_delete. destruct (Js.truthy _).
  - destruct (fault E _); simpl; eexists [_];
      (split; [reflexivity | split; [by repeat constructor | done]]).
  - exists []. rewrite app_nil_r. by repeat split.
Qed.

Lemma after_failed_upload {A} (path : string) (w : World) (e : Js.Error) :
  is_Some (fault E (CloudinaryUpload path)) →
  failed_at_upload (A := A) path w (inl e, after_upload E path w).
Proof.
  intros [e' He']. unfold failed_at_upload; simpl.
  destruct (after_upload_users E path w) as (-> & -> & _).
  rewrite (events_since_app _ _ _ (after_upload_trace E path w)), after_upload_files.
  split; [eauto |]. split; [done |]. split; [done |].
  split; [by repeat constructor |].
  intros [_ Hn]%elem_of_difference. apply Hn. by apply elem_of_singleton.
Qed.

Lemma updateUserAvatar_upload_failed (req : Request) (path : string) (w : World) :
  file_path req = Some path → path ≠ "" → path ∈ files w →
  is_Some (fault E (CloudinaryUpload path)) →
  run E (updateUserAvatar req) w =
  (inl (Js.ApiError 400 "Error while uploading avatar"), after_upload E path w).
Proof.
  intros Hfile Hne Hin [e He]. unfold updateUserAvatar.
  rewrite Hfile, run_bind, run_throw_if, truthy_Some by done. simpl negb. cbv iota.
  rewrite run_bind, uploadOnCloudinary_run by done.
  unfold upload_result. by rewrite He.
Qed.

Lemma updateUserCoverImage_upload_failed (req : Request) (path : string) (w : World) :
  file_path req = Some path → path ≠ "" → path ∈ files w →
  is_Some (fault E (CloudinaryUpload path)) →
  run E (updateUserCoverImage req) w =
  (inl (Js.ApiError 400 "Error while uploading cover image"), after_upload E path w).
Proof.
  intros Hfile Hne Hin [e He]. unfold updateUserCoverImage.
  rewrite Hfile, run_bind, run_throw_if, truthy_Some by done. simpl negb. cbv iota.
  rewrite run_bind, uploadOnCloudinary_run by done.
  unfold upload_result. by rewrite He.
Qed.

(** C6.  When the upload to Cloudinary fails while the avatar or the cover
    image is being replaced, the handler throws, no user and no video
    document has changed, no Cloudinary delete was attempted, and the staged
    file is gone. *)
Theorem replaceAsset_upload_failure (req : Request) (path : string) (w : World) :
  file_path req = Some path → path ≠ "" → path ∈ files w →
  is_Some (fault E (CloudinaryUpload path)) →
  failed_at_upload path w (run E (updateUserAvatar req) w)
  ∧ failed_at_upload path w (run E (updateUserCoverImage req) w).
Proof.
  intros Hfile Hne Hin Hfail. split.
  - rewrite (updateUserAvatar_upload_failed req path) by done.
    by apply after_failed_upload.
  - rewrite (updateUserCoverImage_upload_failed req path) by done.
    by apply after_failed_upload.
Qed.

Lemma effect_user_update (id : string) (upd : UserUpdate) (w : World) :
  ∃ r w', effect E (UserFindByIdAndUpdate (Some id) upd) w = (inr r, w')
          ∧ trace w' = trace w ++ [(UserFindByIdAndUpdate (Some id) upd, true)].
Proof. simpl. destruct (users w !! id); eauto 10. Qed.

(** The events of a replacement whose upload went through and whose write
    returned: upload, unlink, write, then the delete if there is one. *)
Lemma replace_events (path : string) (a : Action) (old : string) (w w1 w2 : World) :
  trace w1 = trace w ++ [(CloudinaryUpload path, true); (FsUnlinkSync path, true)] →
  trace w2 = trace w1 ++ [(a, true)] →
  is_persist (a, true) = true → is_destroy (a, true) = false →
  deletes_follow_persist false (events_since w (after_delete E old w2)) = true.
Proof.
  intros H1 H2 Hp Hd.
  destruct (after_delete_trace old w2) as (ds & Hds & _).
  rewrite (events_since_app w _ ([(CloudinaryUpload path, true); (FsUnlinkSync path, true);
                                  (a, true)] ++ ds)).
  - cbn [app]. rewrite !deletes_follow_persist_cons by done.
    rewrite Hp, orb_true_r. apply deletes_follow_persist_true.
  - rewrite Hds, H2, H1. by rewrite <- !app_assoc.
Qed.

(** The script shared by the avatar and the cover image: the two handlers
    differ in the slot they write and in their messages. *)
Local Ltac replace_order handler req Hfile Hne Hin path w :=
  pose proof (after_upload_trace E path w) as Htr;
  unfold handler;
  rewrite Hfile, truthy_Some by done; change (negb true) with false;
  rewrite run_pass, run_bind, uploadOnCloudinary_run by done;
  unfold upload_result;
  destruct (fault E (CloudinaryUpload path)) as [e |] eqn:Hup; cbv beta iota;
  [ cbn [run snd]; rewrite (events_since_app _ _ _ Htr); reflexivity |];
  destruct (Js.truthy (Some (secure_url (upload_response E path))));
  [| cbn [negb throw_if run snd mbind prog_bind bind];
     rewrite (events_since_app _ _ _ Htr); reflexivity ];
  change (negb true) with false; rewrite run_pass;
  destruct (user req) as [current |];
  [| cbn [run snd]; rewrite (events_since_app _ _ _ Htr); reflexivity ];
  rewrite run_bind, (run_call E (UserFindByIdAndUpdate _ _));
  unfold perform; change (is_async (UserFindByIdAndUpdate _ _)) with true; cbv iota;
  change (mutating (UserFindByIdAndUpdate _ _)) with true; cbv iota;
  match goal with
  | |- context [fault E (UserFindByIdAndUpdate ?i ?u)] =>
      destruct (fault E (UserFindByIdAndUpdate i u));
      [ cbn [run snd];
        rewrite (events_since_app w _
                   [(CloudinaryUpload path, true); (FsUnlinkSync path, true);
                    (UserFindByIdAndUpdate i u, false)]);
        [ done | cbn [log trace]; rewrite Htr; by rewrite <- app_assoc ]
      | destruct (effect_user_update (user_id current) u (after_upload E path w))
          as (r & w2 & -> & Hw2);
        rewrite run_bind, delete_if_present_run; simpl snd;
        by eapply replace_events ]
  end.

(** In every run of the avatar and cover-image handlers on a staged file, a
    Cloudinary delete comes only after the write of the new reference. *)
Lemma updateUserAvatar_deletes_after_persist (req : Request) (path : string) (w : World) :
  file_path req = Some path → path ≠ "" → path ∈ files w →
  deletes_follow_persist false (events_since w (run E (updateUserAvatar req) w).2) = true.
Proof. intros Hfile Hne Hin. replace_order updateUserAvatar req Hfile Hne Hin path w. Qed.

Lemma updateUserCoverImage_deletes_after_persist (req : Request) (path : string) (w : World) :
  file_path req = Some path → path ≠ "" → path ∈ files w →
  deletes_follow_persist false (events_since w (run E (updateUserCoverImage req) w).2) = true.
Proof. intros Hfile Hne Hin. replace_order updateUserCoverImage req Hfile Hne Hin path w. Qed.

End ReplaceAsset.

Lemma replaceAsset_upload_failure_witness :
  failed_at_upload "tmp/upload.jpg" Demo.world
    (run Demo.uploads_fail (UserController.updateUserAvatar Demo.image_request) Demo.world)
  ∧ failed_at_upload "tmp/upload.jpg" Demo.world
      (run Demo.uploads_fail (UserController.updateUserCoverImage Demo.image_request) Demo.world).
Proof.
  apply (replaceAsset_upload_failure Demo.uploads_fail Demo.image_request
           "tmp/upload.jpg" Demo.world).
  - reflexivity.
  - discriminate.
  - vm_compute. reflexivity.
  - vm_compute. eauto.
Defined.

(** ** Replacing a thumbnail, deleting a video *)

Section VideoAssets.
Context (E : Env).
Import Cloudinary VideoController.

(** The steps every video handler starts with. *)
Lemma valid_videoId_run (req : Request) (id : string) (w : World) :
  params req !! "videoId" = Some id →
  run E (valid_videoId req) w = (inr (isValidObjectId E id), w).
Proof. intros H. unfold valid_videoId. by rewrite H. Qed.

Lemma find_video_run (id : string) (w : World) :
  fault E (VideoFindById id) = None →
  @run (option Video) E (call (VideoFindById id)) w = (inr (videos w !! id), w).
Proof. intros H. rewrite (run_call E (VideoFindById id)). unfold perform; simpl. by rewrite H. Qed.

Lemma perform_video_update (id : string) (upd : VideoUpdate) (w : World) :
  ∃ r w' ok, perform E (VideoFindByIdAndUpdate id upd) w = (r, w')
             ∧ trace w' = trace w ++ [(VideoFindByIdAndUpdate id upd, ok)].
Proof.
  unfold perform; simpl.
  destruct (fault E _); [by eexists _, _, _ |].
  destruct (videos w !! id); by eexists _, _, _.
Qed.

Lemma updateVideo_events (req : Request) (id path : string) (v : Video) (w : World) :
  params req !! "videoId" = Some id → isValidObjectId E id = true →
  fault E (VideoFindById id) = None → videos w !! id = Some v →
  not_owner v req = false →
  file_path req = Some path → path ≠ "" → path ∈ files w →
  fault E (CloudinaryUpload path) = None →
  secure_url (upload_response E path) ≠ "" →
  video_thumbnail v ≠ "" →
  ∃ upd ok ok',
    upd_thumbnail upd = Some (secure_url (upload_response E path))
    ∧ events_since w (run E (updateVideo req) w).2 =
      [(CloudinaryUpload path, true); (FsUnlinkSync path, true);
       (CloudinaryDestroy (publicId_of (video_thumbnail v))
                          (resourceType_of (video_thumbnail v)), ok);
       (VideoFindByIdAndUpdate id upd, ok')].
Proof.
  intros Hparam Hvalid Hfind Hv Hown Hfile Hne Hin Hup Hurl Hold.
  unfold updateVideo.
  rewrite run_bind, (valid_videoId_run req id) by done. rewrite Hvalid.
  change (negb true) with false. rewrite run_pass.
  rewrite Hparam. change (default "" (Some id)) with id.
  rewrite run_bind, find_video_run, Hv by done. cbv beta iota.
  rewrite Hown, run_pass.
  rewrite Hfile, truthy_Some by done. cbv iota.
  rewrite run_bind. rewrite run_bind.
  rewrite uploadOnCloudinary_run by done.
  unfold upload_result. rewrite Hup. cbv beta iota.
  rewrite truthy_Some by done. change (negb true) with false. rewrite run_pass.
  rewrite run_bind, delete_if_present_run. cbv beta iota. cbn [run].
  rewrite run_bind, (run_call E (VideoFindByIdAndUpdate _ _)).
  set (upd := mkVideoUpdate _ _ _).
  exists upd.
  pose proof (after_upload_trace E path w) as Htr. rewrite Hup in Htr.
  unfold after_delete. rewrite truthy_Some by done.
  set (d := CloudinaryDestroy _ _).
  set (w1 := after_upload E path w) in *.
  assert (∃ ok w2, match fault E d with
          | Some _ => log (d, false) w1
          | None =>
              log (d, true)
                (set_assets
                   (assets w1 ∖ {[publicId_of (video_thumbnail v)]}) w1)
          end = w2 ∧ trace w2 = trace w1 ++ [(d, ok)]) as (ok & w2 & -> & Hw2).
  { destruct (fault E d); eexists _, _; (split; [reflexivity | reflexivity]). }
  destruct (perform_video_update id upd w2) as (r & w3 & ok' & -> & Hw3).
  exists ok, ok'. split; [done |].
  apply events_since_app.
  transitivity (trace w3); [| rewrite Hw3, Hw2, Htr; by rewrite <- !app_assoc].
  destruct r as [e | [x |]]; reflexivity.
Qed.

(** A failed upload of the new thumbnail leaves the same state behind as a
    failed upload of an avatar: the handler throws (a [TypeError], as it
    reads [secure_url] of [null]), nothing was written or deleted, and the
    staged file is gone. *)
Lemma updateVideo_upload_failure
    (req : Request) (id path : string) (v : Video) (w : World) :
  params req !! "videoId" = Some id → isValidObjectId E id = true →
  fault E (VideoFindById id) = None → videos w !! id = Some v →
  not_owner v req = false →
  file_path req = Some path → path ≠ "" → path ∈ files w →
  is_Some (fault E (CloudinaryUpload path)) →
  failed_at_upload path w (run E (updateVideo req) w).
Proof.
  intros Hparam Hvalid Hfind Hv Hown Hfile Hne Hin [e He].
  unfold updateVideo.
  rewrite run_bind, (valid_videoId_run req id) by done. rewrite Hvalid.
  change (negb true) with false. rewrite run_pass.
  rewrite Hparam. change (default "" (Some id)) with id.
  rewrite run_bind, find_video_run, Hv by done. cbv beta iota.
  rewrite Hown, run_pass.
  rewrite Hfile, truthy_Some by done. cbv iota.
  rewrite run_bind. rewrite run_bind.
  rewrite uploadOnCloudinary_run by done.
  unfold upload_result. rewrite He. cbv beta iota. cbn [run].
  apply after_failed_upload. by rewrite He.
Qed.

(** With a thumbnail to replace, the handler deletes the old one before it
    writes the new reference. *)
Lemma updateVideo_destroys_old_thumbnail_first
    (req : Request) (id path : string) (v : Video) (w : World) :
  params req !! "videoId" = Some id → isValidObjectId E id = true →
  fault E (VideoFindById id) = None → videos w !! id = Some v →
  not_owner v req = false →
  file_path req = Some path → path ≠ "" → path ∈ files w →
  fault E (CloudinaryUpload path) = None →
  secure_url (upload_response E path) ≠ "" →
  video_thumbnail v ≠ "" →
  deletes_follow_persist false (events_since w (run E (updateVideo req) w).2) = false.
Proof.
  intros. edestruct updateVideo_events as (upd & ok & ok' & _ & ->); try eassumption.
  rewrite !deletes_follow_persist_cons by done. by apply deletes_follow_persist_destroy.
Qed.

Lemma after_delete_events (fileUrl : string) (w : World) :
  trace (after_delete E fileUrl w) = trace w ++ destroy_events E fileUrl.
Proof.
  unfold after_delete, destroy_events. destruct (Js.truthy _).
  - by destruct (fault E _).
  - by rewrite app_nil_r.
Qed.

Lemma destroy_events_destroy (fileUrl : string) :
  Forall (λ ev, is_destroy ev = true) (destroy_events E fileUrl).
Proof. unfold destroy_events. destruct (Js.truthy _); by repeat constructor. Qed.

Lemma after_delete_assets (fileUrl : string) (w : World) :
  assets (after_delete E fileUrl w) ⊆ assets w.
Proof.
  unfold after_delete. destruct (Js.truthy _); [| done].
  destruct (fault E _); simpl; [done |]. apply subseteq_difference_l. done.
Qed.

Lemma after_delete_destroyed (fileUrl : string) (w : World) :
  fileUrl ≠ "" →
  fault E (CloudinaryDestroy (publicId_of fileUrl) (resourceType_of fileUrl)) = None →
  publicId_of fileUrl ∉ assets (after_delete E fileUrl w).
Proof.
  intros Hne Hok. unfold after_delete. rewrite truthy_Some, Hok by done. simpl.
  intros [_ Hn]%elem_of_difference. apply Hn. by apply elem_of_singleton.
Qed.

(** C10.  [deleteVideo] on a video of the caller first asks Cloudinary to
    delete the video file and the thumbnail and only then deletes the
    document.  When that last call fails the request fails, the document is
    still there, and each asset whose delete went through is gone from
    Cloudinary; when it succeeds the document is gone. *)
Theorem deleteVideo_remote_deletes_precede_database_delete
    (req : Request) (id : string) (v : Video) (w : World) :
  params req !! "videoId" = Some id → isValidObjectId E id = true →
  fault E (VideoFindById id) = None →
  videos w !! id = Some v → video_id v = id →
  not_owner v req = false →
  ∃ r w' ok,
    run E (deleteVideo req) w = (r, w')
    ∧ events_since w w' =
        destroy_events E (video_videoFile v) ++ destroy_events E (video_thumbnail v)
        ++ [(VideoFindByIdAndDelete id, ok)]
    ∧ (∀ e, fault E (VideoFindByIdAndDelete id) = Some e →
         r = inl e ∧ ok = false ∧ videos w' !! id = Some v
         ∧ ∀ fileUrl, fileUrl ∈ [video_videoFile v; video_thumbnail v] →
             fileUrl ≠ "" →
             fault E (CloudinaryDestroy (publicId_of fileUrl) (resourceType_of fileUrl)) = None →
             publicId_of fileUrl ∉ assets w')
    ∧ (fault E (VideoFindByIdAndDelete id) = None →
         r = inr deleted_response ∧ ok = true ∧ videos w' !! id = None).
Proof.
  intros Hparam Hvalid Hfind Hv Hid Hown.
  unfold deleteVideo.
  rewrite run_bind, (valid_videoId_run req id) by done. rewrite Hvalid.
  change (negb true) with false. rewrite run_pass.
  rewrite Hparam. change (default "" (Some id)) with id.
  rewrite run_bind, find_video_run, Hv by done. cbv beta iota.
  rewrite Hown, run_pass.
  rewrite run_bind, delete_if_present_run. cbv beta iota.
  rewrite run_bind, delete_if_present_run. cbv beta iota.
  rewrite run_bind, (run_call E (VideoFindByIdAndDelete _)), Hid.
  set (w1 := after_delete E (video_videoFile v) w).
  set (w2 := after_delete E (video_thumbnail v) w1).
  assert (trace w2 = trace w ++ destroy_events E (video_videoFile v)
                               ++ destroy_events E (video_thumbnail v)) as Htr.
  { unfold w2, w1. by rewrite !after_delete_events, <- app_assoc. }
  assert (videos w2 = videos w) as Hvideos.
  { unfold w2, w1.
    destruct (after_delete_frame E (video_thumbnail v) (after_delete E (video_videoFile v) w))
      as (_ & -> & _).
    by destruct (after_delete_frame E (video_videoFile v) w) as (_ & -> & _). }
  unfold perform. change (is_async (VideoFindByIdAndDelete id)) with true. cbv iota.
  change (mutating (VideoFindByIdAndDelete id)) with true. cbv iota.
  destruct (fault E (VideoFindByIdAndDelete id)) as [e |] eqn:Hdel.
  - eexists _, _, false. split; [reflexivity |]. split; [| split; [| done]].
    + apply events_since_app. cbn [log trace]. rewrite Htr. by rewrite <- !app_assoc.
    + intros e' [= <-]. split; [done |]. split; [done |].
      cbn [log videos]. rewrite Hvideos. split; [done |].
      intros fileUrl Hin Hne Hok. cbn [log assets].
      apply elem_of_cons in Hin as [-> | Hin].
      * intros Hin'. apply (after_delete_destroyed (video_videoFile v) w Hne Hok).
        by apply (after_delete_assets (video_thumbnail v) w1).
      * apply list_elem_of_singleton in Hin as ->.
        by apply after_delete_destroyed.
  - cbn [effect]. rewrite Hvideos, Hv.
    eexists _, _, true. split; [reflexivity |]. split; [| split; [done |]].
    + apply events_since_app. cbn [log trace set_videos]. rewrite Htr.
      by rewrite <- !app_assoc.
    + intros _. split; [done |]. split; [done |].
      cbn [log videos set_videos]. by rewrite lookup_delete_eq.
Qed.

End VideoAssets.

Lemma deleteVideo_remote_deletes_precede_database_delete_witness :
  ∃ r w' ok,
    run Demo.deletes_fail (VideoController.deleteVideo Demo.delete_request) Demo.world = (r, w')
    ∧ events_since Demo.world w' =
        destroy_events Demo.deletes_fail (video_videoFile Demo.clip)
        ++ destroy_events Demo.deletes_fail (video_thumbnail Demo.clip)
        ++ [(VideoFindByIdAndDelete "v1", ok)]
    ∧ (∀ e, fault Demo.deletes_fail (VideoFindByIdAndDelete "v1") = Some e →
         r = inl e ∧ ok = false ∧ videos w' !! "v1" = Some Demo.clip
         ∧ ∀ fileUrl, fileUrl ∈ [video_videoFile Demo.clip; video_thumbnail Demo.clip] →
             fileUrl ≠ "" →
             fault Demo.deletes_fail
               (CloudinaryDestroy (Cloudinary.publicId_of fileUrl)
                                  (Cloudinary.resourceType_of fileUrl)) = None →
             Cloudinary.publicId_of fileUrl ∉ assets w')
    ∧ (fault Demo.deletes_fail (VideoFindByIdAndDelete "v1") = None →
         r = inr deleted_response ∧ ok = true ∧ videos w' !! "v1" = None).
Proof.
  apply (deleteVideo_remote_deletes_precede_database_delete
           Demo.deletes_fail Demo.delete_request "v1" Demo.clip Demo.world);
    vm_compute; reflexivity.
Defined.

(** C2 (the thumbnail path departs from it).  On a video whose thumbnail is
    replaced, [updateVideo] calls Cloudinary to delete the old thumbnail
    before it writes the new reference to the video; when that write then
    fails, the request fails, the video still names the old thumbnail, and the
    old thumbnail is gone from Cloudinary. *)
Theorem updateVideo_deletes_before_persisting :
  events_since Demo.world
    (run Demo.reliable (VideoController.updateVideo Demo.thumbnail_request) Demo.world).2
  = [(CloudinaryUpload "tmp/upload.jpg", true);
     (FsUnlinkSync "tmp/upload.jpg", true);
     (CloudinaryDestroy "thumb" "image", true);
     (VideoFindByIdAndUpdate "v1"
        (mkVideoUpdate None None (Some "https://cdn.test/image/upload/tmp/upload.jpg")), true)]
  ∧ occurs_before
      (CloudinaryDestroy "thumb" "image", true)
      (VideoFindByIdAndUpdate "v1"
         (mkVideoUpdate None None (Some "https://cdn.test/image/upload/tmp/upload.jpg")), true)
      (events_since Demo.world
         (run Demo.reliable (VideoController.updateVideo Demo.thumbnail_request) Demo.world).2)
  ∧ deletes_follow_persist false
      (events_since Demo.world
         (run Demo.reliable (VideoController.updateVideo Demo.thumbnail_request) Demo.world).2)
    = false
  ∧ (run Demo.updates_fail (VideoController.updateVideo Demo.thumbnail_request) Demo.world).1
    = inl Demo.Unreachable
  ∧ video_thumbnail <$>
      videos (run Demo.updates_fail (VideoController.updateVideo Demo.thumbnail_request)
                Demo.world).2 !! "v1"
    = Some "https://cdn.test/image/upload/thumb.jpg"
  ∧ "thumb" ∈ assets Demo.world
  ∧ "thumb" ∉ assets (run Demo.updates_fail
                        (VideoController.updateVideo Demo.thumbnail_request) Demo.world).2.
Proof.
  assert (events_since Demo.world
            (run Demo.reliable (VideoController.updateVideo Demo.thumbnail_request)
                 Demo.world).2
          = [(CloudinaryUpload "tmp/upload.jpg", true);
             (FsUnlinkSync "tmp/upload.jpg", true);
             (CloudinaryDestroy "thumb" "image", true);
             (VideoFindByIdAndUpdate "v1"
                (mkVideoUpdate None None
                   (Some "https://cdn.test/image/upload/tmp/upload.jpg")), true)]) as Hevents
    by (vm_compute; reflexivity).
  split; [exact Hevents |]. split.
  { rewrite Hevents. by eexists [_; _], [], []. }
  repeat split; try (vm_compute; reflexivity).
  intros H. vm_compute in H. discriminate.
Qed.

(** C9 (three of the four uploading handlers depart from it).  When the
    upload to Cloudinary fails, the avatar handler, the cover-image handler
    and the [publishAVideo] of the second video controller throw an
    [ApiError] with status 400, the class of failures blamed on the caller;
    only the [publishAVideo] of the first video controller throws status
    500. *)
Theorem upload_failure_reported_as_client_error :
  (run Demo.uploads_fail (UserController.updateUserAvatar Demo.image_request) Demo.world).1
    = inl (Js.ApiError 400 "Error while uploading avatar")
  ∧ (run Demo.uploads_fail (UserController.updateUserCoverImage Demo.image_request) Demo.world).1
    = inl (Js.ApiError 400 "Error while uploading cover image")
  ∧ (run Demo.uploads_fail (VideoController2.publishAVideo Demo.publish_request) Demo.studio).1
    = inl (Js.ApiError 400 "Video file upload failed")
  ∧ (run Demo.uploads_fail (VideoController.publishAVideo Demo.publish_request) Demo.studio).1
    = inl (Js.ApiError 500 "Video file upload failed")
  ∧ client_error (Js.ApiError 400 "Error while uploading avatar") = true
  ∧ server_error (Js.ApiError 400 "Error while uploading avatar") = false
  ∧ server_error (Js.ApiError 500 "Video file upload failed") = true.
Proof. repeat split; vm_compute; reflexivity. Qed.

(** Whatever the deployment, a failed upload makes the avatar and the
    cover-image handlers answer with a status of the 4xx class. *)
Lemma replace_upload_failure_is_client_error
    (E : Env) (req : Request) (path : string) (w : World) :
  file_path req = Some path → path ≠ "" → path ∈ files w →
  is_Some (fault E (CloudinaryUpload path)) →
  ∃ e e',
    (run E (UserController.updateUserAvatar req) w).1 = inl e
    ∧ (run E (UserController.updateUserCoverImage req) w).1 = inl e'
    ∧ client_error e = true ∧ client_error e' = true
    ∧ server_error e = false ∧ server_error e' = false.
Proof.
  intros Hfile Hne Hin Hfail.
  rewrite (updateUserAvatar_upload_failed E req path),
          (updateUserCoverImage_upload_failed E req path) by done.
  by eexists _, _.
Qed.

(** ** Issuing, rotating and revoking tokens *)

Section Tokens.
Context (E : Env).
Import UserController.

Lemma process_env_run (name : string) (w : World) :
  @run (option string) E (call (ProcessEnv name)) w = (inr (process_env E !! name), w).
Proof. reflexivity. Qed.

Lemma jwt_verify_run (token : string) (secret : option string) (w : World) :
  @run Claims E (call (JwtVerify token secret)) w = (jwt_verify E token secret (clock w), w).
Proof.
  rewrite (run_call E (JwtVerify token secret)). reflexivity.
Qed.

Lemma find_user_run (id : option string) (w : World) :
  fault E (UserFindById id) = None →
  @run (option User) E (call (UserFindById id)) w = (inr (id ≫= λ i, users w !! i), w).
Proof.
  intros H. rewrite (run_call E (UserFindById id)). unfold perform; simpl. by rewrite H.
Qed.

Lemma generateAccessAndRefreshToken_run (u : User) (w : World) :
  users w !! user_id u = Some u →
  fault E (UserFindById (Some (user_id u))) = None →
  fault E (UserSave (with_refreshToken (Some (generateRefreshToken E u (clock w))) u)) = None →
  run E (generateAccessAndRefreshToken (user_id u)) w =
  (inr (generateAccessToken E u (clock w), generateRefreshToken E u (clock w)),
   saved (with_refreshToken (Some (generateRefreshToken E u (clock w))) u) w).
Proof.
  intros Hu Hfind Hsave. unfold generateAccessAndRefreshToken.
  rewrite run_try_catch, run_bind, find_user_run by done.
  change (Some (user_id u) ≫= λ i, users w !! i) with (users w !! user_id u).
  rewrite Hu. cbv beta iota.
  rewrite run_bind, (run_call E (GenerateAccessToken u)).
  unfold perform at 1. cbn [is_async effect]. cbv beta iota.
  rewrite run_bind, (run_call E (GenerateRefreshToken u)).
  unfold perform at 1. cbn [is_async effect]. cbv beta iota.
  rewrite run_bind, (run_call E (UserSave _)).
  unfold perform. cbn [is_async]. rewrite Hsave. cbn [effect with_refreshToken user_id].
  rewrite Hu. reflexivity.
Qed.

(** Up to the comparison with the stored token. *)
Lemma refreshAccessToken_found
    (req : Request) (T : string) (claims : Claims) (u : User) (w : World) :
  incoming req = Some T → T ≠ "" →
  jwt_verify E T (process_env E !! "REFRESH_TOKEN_SECRET") (clock w) = inr claims →
  claim_id claims = Some (user_id u) →
  users w !! user_id u = Some u →
  fault E (UserFindById (Some (user_id u))) = None →
  run E (refreshAccessToken req) w =
  run E (try_catch
           (if decide (Some T ≠ user_refreshToken u)
            then Throw (Js.ApiError 401 "Refresh token is expired or used")
            else
              '(accessToken, refreshToken) ← generateAccessAndRefreshToken (user_id u);
              Ret (refreshed accessToken refreshToken))
           (λ error, Throw (Js.ApiError 401 (Js.message_or error "Invalid refresh token")))) w.
Proof.
  intros Hin Hne Hverify Hid Hu Hfind. unfold refreshAccessToken.
  fold (incoming req). rewrite Hin, truthy_Some by done. cbv beta iota.
  change (negb true) with false. cbv iota.
  rewrite !run_try_catch.
  rewrite run_bind, process_env_run. cbv beta iota.
  rewrite run_bind, jwt_verify_run, Hverify. cbv beta iota.
  rewrite run_bind, Hid, find_user_run by done.
  change (Some (user_id u) ≫= λ i, users w !! i) with (users w !! user_id u).
  rewrite Hu. reflexivity.
Qed.

(** A rotation with the stored token, and one with any other token that
    verifies. *)
Lemma rotate_succeeds
    (req : Request) (T : string) (claims : Claims) (u : User) (w : World) :
  incoming req = Some T → T ≠ "" →
  jwt_verify E T (process_env E !! "REFRESH_TOKEN_SECRET") (clock w) = inr claims →
  claim_id claims = Some (user_id u) →
  users w !! user_id u = Some u →
  user_refreshToken u = Some T →
  fault E (UserFindById (Some (user_id u))) = None →
  fault E (UserSave (with_refreshToken (Some (generateRefreshToken E u (clock w))) u)) = None →
  run E (refreshAccessToken req) w =
  (inr (refreshed (generateAccessToken E u (clock w)) (generateRefreshToken E u (clock w))),
   saved (with_refreshToken (Some (generateRefreshToken E u (clock w))) u) w).
Proof.
  intros Hin Hne Hverify Hid Hu Hstored Hfind Hsave.
  rewrite (refreshAccessToken_found req T claims u) by done.
  rewrite Hstored, decide_False by (by intros []).
  by rewrite run_try_catch, run_bind, generateAccessAndRefreshToken_run.
Qed.

Lemma rotate_refused
    (req : Request) (T : string) (claims : Claims) (u : User) (w : World) :
  incoming req = Some T → T ≠ "" →
  jwt_verify E T (process_env E !! "REFRESH_TOKEN_SECRET") (clock w) = inr claims →
  claim_id claims = Some (user_id u) →
  users w !! user_id u = Some u →
  user_refreshToken u ≠ Some T →
  fault E (UserFindById (Some (user_id u))) = None →
  run E (refreshAccessToken req) w =
  (inl (Js.ApiError 401 "Refresh token is expired or used"), w).
Proof.
  intros Hin Hne Hverify Hid Hu Hstored Hfind.
  rewrite (refreshAccessToken_found req T claims u) by done.
  by rewrite decide_True by congruence.
Qed.

Lemma truthy_default (v : option string) :
  Js.truthy v = true → v = Some (default "" v) ∧ default "" v ≠ "".
Proof. intros (s & -> & Hs)%truthy_Some_inv. done. Qed.

(** C5 (the middleware of src/middlewares/auth.middleware.js departs from
    it).  That [verifyJWT] refuses every request with status 401, whatever
    token it carries, so also the access token just issued to a user who
    exists; the request never reaches [next()]. *)
Theorem verifyJWT_rejects_every_request (req : Request) (w : World) :
  ∃ msg, run E (AuthMiddleware.verifyJWT req) w = (inl (Js.ApiError 401 msg), w).
Proof.
  unfold AuthMiddleware.verifyJWT. rewrite run_try_catch.
  destruct (Js.truthy _).
  - change (negb true) with false. rewrite run_pass. by eexists.
  - change (negb false) with true. rewrite run_stop. by eexists.
Qed.

(** What [verifyJWT] of auth.middleware.js (part_001) does with a token
    that verifies. *)
Lemma verifyJWT_verified (req : Request) (t : string) (claims : Claims) (w : World) :
  presented req = Some t → t ≠ "" →
  jwt_verify E t (process_env E !! "ACCESS_TOKEN_SECRET") (clock w) = inr claims →
  fault E (UserFindById (claim_id claims)) = None →
  run E (AuthMiddleware1.verifyJWT req) w =
  (match claim_id claims ≫= λ i, users w !! i with
   | Some u => inr (attach (select_public u) req)
   | None => inl (Js.ApiError 401 "Invalid Access Token")
   end, w).
Proof.
  intros Htok Hne Hverify Hfind. unfold AuthMiddleware1.verifyJWT.
  fold (presented req). rewrite Htok, truthy_Some by done.
  change (negb true) with false.
  rewrite run_try_catch, run_pass, run_bind, process_env_run. cbv beta iota.
  change (default "" (Some t)) with t.
  rewrite run_bind, jwt_verify_run, Hverify. cbv beta iota.
  rewrite run_bind, find_user_run by done. cbv beta iota.
  by destruct (claim_id claims ≫= _).
Qed.

Lemma verifyJWT_unverified (req : Request) (t : string) (e : Js.Error) (w : World) :
  presented req = Some t → t ≠ "" →
  jwt_verify E t (process_env E !! "ACCESS_TOKEN_SECRET") (clock w) = inl e →
  run E (AuthMiddleware1.verifyJWT req) w =
  (inl (Js.ApiError 401 (Js.message_or e "Invalid Access Token")), w).
Proof.
  intros Htok Hne Hverify. unfold AuthMiddleware1.verifyJWT.
  fold (presented req). rewrite Htok, truthy_Some by done.
  change (negb true) with false.
  rewrite run_try_catch, run_pass, run_bind, process_env_run. cbv beta iota.
  change (default "" (Some t)) with t.
  rewrite run_bind, jwt_verify_run, Hverify. reflexivity.
Qed.

Lemma verifyJWT_no_token (req : Request) (w : World) :
  Js.truthy (presented req) = false →
  run E (AuthMiddleware1.verifyJWT req) w = (inl (Js.ApiError 401 "Unauthorized request"), w).
Proof.
  intros H. unfold AuthMiddleware1.verifyJWT. fold (presented req).
  rewrite H, run_try_catch. change (negb false) with true. by rewrite run_stop.
Qed.

Lemma verifyJWT_lookup_failed
    (req : Request) (t : string) (claims : Claims) (e : Js.Error) (w : World) :
  presented req = Some t → t ≠ "" →
  jwt_verify E t (process_env E !! "ACCESS_TOKEN_SECRET") (clock w) = inr claims →
  fault E (UserFindById (claim_id claims)) = Some e →
  run E (AuthMiddleware1.verifyJWT req) w =
  (inl (Js.ApiError 401 (Js.message_or e "Invalid Access Token")), w).
Proof.
  intros Htok Hne Hverify Hfind. unfold AuthMiddleware1.verifyJWT.
  fold (presented req). rewrite Htok, truthy_Some by done.
  change (negb true) with false.
  rewrite run_try_catch, run_pass, run_bind, process_env_run. cbv beta iota.
  change (default "" (Some t)) with t.
  rewrite run_bind, jwt_verify_run, Hverify. cbv beta iota.
  rewrite run_bind, (run_call E (UserFindById _)). unfold perform. cbn [is_async mutating].
  by rewrite Hfind.
Qed.

Lemma select_public_unset (u : User) :
  select_public u = with_password None (with_refreshToken None u).
Proof. by destruct u. Qed.

(** [verifyJWT] sees of the store only the clock and the public part of
    the users. *)
Lemma verifyJWT_agree (req : Request) (w w' : World) :
  clock w' = clock w →
  (∀ i, with_refreshToken None <$> users w' !! i = with_refreshToken None <$> users w !! i) →
  (run E (AuthMiddleware1.verifyJWT req) w').1 = (run E (AuthMiddleware1.verifyJWT req) w).1.
Proof.
  intros Hclock Husers.
  destruct (Js.truthy (presented req)) eqn:Htruthy.
  2: { by rewrite !verifyJWT_no_token. }
  apply truthy_default in Htruthy as [Htok Hne].
  set (t := default "" (presented req)) in *.
  destruct (jwt_verify E t (process_env E !! "ACCESS_TOKEN_SECRET") (clock w))
    as [e | claims] eqn:Hv.
  { rewrite !(verifyJWT_unverified req t e); try done. by rewrite Hclock. }
  destruct (fault E (UserFindById (claim_id claims))) as [e |] eqn:Hf.
  { rewrite !(verifyJWT_lookup_failed req t claims e); try done. by rewrite Hclock. }
  rewrite !(verifyJWT_verified req t claims); try done; [| by rewrite Hclock].
  destruct (claim_id claims) as [i |]; [| done]. cbn [mbind option_bind].
  specialize (Husers i).
  destruct (users w' !! i) as [u' |], (users w !! i) as [u |]; try done.
  cbn [fmap option_fmap option_map] in Husers.
  assert (with_refreshToken None u' = with_refreshToken None u) as Heq by congruence.
  cbn [fst]. by rewrite !select_public_unset, Heq.
Qed.

(** C7.  [logoutUser] answers 200 and unsets the refresh token of the
    caller's document; every other field of it, every other user, the
    videos, the files, the assets and the clock stay as they were.  Before
    and after it, at the same instant or [n] seconds later, [verifyJWT]
    gives every request the same outcome: an access token that was accepted
    stays accepted, with the same user attached, until it expires. *)
Theorem revoke_keeps_short_tokens_valid (req0 : Request) (u u0 : User) (w : World) :
  user req0 = Some u →
  users w !! user_id u = Some u0 →
  fault E (UserFindByIdAndUpdate (Some (user_id u)) UnsetRefreshToken) = None →
  ∃ w',
    run E (logoutUser req0) w = (inr logged_out, w')
    ∧ users w' !! user_id u = Some (with_refreshToken None u0)
    ∧ (∀ i, i ≠ user_id u → users w' !! i = users w !! i)
    ∧ videos w' = videos w ∧ files w' = files w ∧ assets w' = assets w
    ∧ clock w' = clock w
    ∧ ∀ req n,
        (run E (AuthMiddleware1.verifyJWT req) (tick n w')).1
        = (run E (AuthMiddleware1.verifyJWT req) (tick n w)).1.
Proof.
  intros Huser Hu0 Hfault. unfold logoutUser. rewrite Huser.
  rewrite run_bind, (run_call E (UserFindByIdAndUpdate _ _)).
  unfold perform. cbn [is_async]. rewrite Hfault. cbn [effect mbind option_bind].
  rewrite Hu0. cbn [fmap option_fmap option_map].
  eexists. split; [reflexivity |]. cbn [log users set_users videos files assets clock].
  split; [by rewrite lookup_insert_eq |].
  split; [by intros i Hi; rewrite lookup_insert_ne |].
  do 4 (split; [done |]).
  intros req n. apply verifyJWT_agree; [done |].
  intros i. cbn [tick users log set_users].
  destruct (decide (i = user_id u)) as [-> | Hi].
  - rewrite lookup_insert_eq, Hu0. by destruct u0.
  - by rewrite lookup_insert_ne.
Qed.

(** C8.  [verifyJWTOptional] never throws and never touches the store: it
    hands a request to [next()].  That request carries the user (without
    password and refresh token) when a non-empty token was presented, it
    verifies, and the lookup of its subject returns a user; otherwise it is
    the incoming request, unchanged. *)
Theorem verifyJWTOptional_never_fails (req : Request) (w : World) :
  ∃ req',
    run E (AuthOptionalMiddleware.verifyJWTOptional req) w = (inr req', w)
    ∧ ((∃ t claims i u,
           presented req = Some t ∧ t ≠ ""
           ∧ jwt_verify E t (process_env E !! "ACCESS_TOKEN_SECRET") (clock w) = inr claims
           ∧ fault E (UserFindById (claim_id claims)) = None
           ∧ claim_id claims = Some i ∧ users w !! i = Some u
           ∧ req' = attach (select_public u) req)
       ∨ (req' = req
          ∧ ¬ ∃ t claims i u,
              presented req = Some t ∧ t ≠ ""
              ∧ jwt_verify E t (process_env E !! "ACCESS_TOKEN_SECRET") (clock w) = inr claims
              ∧ fault E (UserFindById (claim_id claims)) = None
              ∧ claim_id claims = Some i ∧ users w !! i = Some u)).
Proof.
  unfold AuthOptionalMiddleware.verifyJWTOptional. fold (presented req).
  rewrite run_bind, run_try_catch.
  destruct (Js.truthy (presented req)) eqn:Htruthy.
  2: { exists req. split; [done |]. right. split; [done |].
       intros (t & claims & i & u & Htok & Hne & _).
       rewrite Htok, truthy_Some in Htruthy by done. done. }
  apply truthy_default in Htruthy as [Htok Hne].
  set (t := default "" (presented req)) in *.
  change (negb true) with false. cbv iota.
  rewrite run_bind, process_env_run. cbv beta iota.
  rewrite run_bind, jwt_verify_run.
  destruct (jwt_verify E t _ (clock w)) as [e | claims] eqn:Hv.
  { exists req. split; [done |]. right. split; [done |].
    intros (t' & claims & i & u & Htok' & _ & Hv' & _). congruence. }
  cbv beta iota.
  rewrite run_bind, (run_call E (UserFindById _)). unfold perform. cbn [is_async mutating].
  destruct (fault E (UserFindById (claim_id claims))) as [e |] eqn:Hf.
  { exists req. split; [done |]. right. split; [done |].
    intros (t' & claims' & i & u & Htok' & _ & Hv' & Hf' & _). congruence. }
  cbn [effect].
  destruct (claim_id claims) as [i |] eqn:Hid; cbn [mbind option_bind].
  2: { exists req. split; [done |]. right. split; [done |].
       intros (t' & claims' & i & u & Htok' & _ & Hv' & _ & Hid' & _). congruence. }
  destruct (users w !! i) as [u |] eqn:Hu.
  - exists (attach (select_public u) req). split; [done |]. left.
    exists t, claims, i, u. repeat split; try done. by rewrite Hid.
  - exists req. split; [done |]. right. split; [done |].
    intros (t' & claims' & i' & u & Htok' & _ & Hv' & _ & Hid' & Hu'). congruence.
Qed.

(** A user whose stored refresh token is [T] is not changed by storing [T]
    again. *)
Lemma with_refreshToken_stored (T : string) (u : User) :
  user_refreshToken u = Some T → with_refreshToken (Some T) u = u.
Proof. destruct u; cbn. by intros ->. Qed.

(** C1, as the code has it.  When the refresh token [T] presented to
    [refreshAccessToken] is the one stored for a user and verifies, the call
    answers 200 with the pair minted at that instant and stores its refresh
    token [T2].  What a second call presenting [T] right after meets is
    decided by the comparison with the stored token alone: when [T2] differs
    from [T] it is refused with 401 "Refresh token is expired or used",
    issues nothing and leaves the store, the files and the trace as they
    were; when [T2] is [T] again it is answered 200 with the same pair. *)
Theorem rotate_rejects_superseded_token
    (req : Request) (T : string) (claims : Claims) (u : User) (w : World) :
  incoming req = Some T → T ≠ "" →
  jwt_verify E T (process_env E !! "REFRESH_TOKEN_SECRET") (clock w) = inr claims →
  claim_id claims = Some (user_id u) →
  users w !! user_id u = Some u →
  user_refreshToken u = Some T →
  fault E (UserFindById (Some (user_id u))) = None →
  fault E (UserSave (with_refreshToken (Some (generateRefreshToken E u (clock w))) u)) = None →
  let T2 := generateRefreshToken E u (clock w) in
  let first := refreshed (generateAccessToken E u (clock w)) T2 in
  ∃ w1,
    run E (refreshAccessToken req) w = (inr first, w1)
    ∧ users w1 !! user_id u = Some (with_refreshToken (Some T2) u)
    ∧ clock w1 = clock w
    ∧ (T2 ≠ T →
       run E (refreshAccessToken req) w1 =
         (inl (Js.ApiError 401 "Refresh token is expired or used"), w1))
    ∧ (T2 = T →
       ∃ w2, run E (refreshAccessToken req) w1 = (inr first, w2)
             ∧ users w2 !! user_id u = Some u).
Proof.
  intros Hin Hne Hverify Hid Hu Hstored Hfind Hsave. cbv zeta.
  exists (saved (with_refreshToken (Some (generateRefreshToken E u (clock w))) u) w).
  assert (users (saved (with_refreshToken (Some (generateRefreshToken E u (clock w))) u) w)
            !! user_id u
          = Some (with_refreshToken (Some (generateRefreshToken E u (clock w))) u)) as Hu1.
  { unfold saved. cbn [log users set_users with_refreshToken user_id].
    apply lookup_insert_eq. }
  split; [by apply (rotate_succeeds req T claims) |].
  split; [done |]. split; [done |]. split.
  - intros Hfresh.
    apply (rotate_refused req T claims
             (with_refreshToken (Some (generateRefreshToken E u (clock w))) u)); try done.
    cbn [with_refreshToken user_refreshToken]. congruence.
  - intros Hsame.
    assert (with_refreshToken (Some (generateRefreshToken E u (clock w))) u = u) as Hkept.
    { rewrite Hsame. by apply with_refreshToken_stored. }
    rewrite Hkept in Hu1 |- *.
    exists (saved (with_refreshToken (Some (generateRefreshToken E u (clock w))) u)
                  (saved u w)).
    split.
    + by apply (rotate_succeeds req T claims u (saved u w)).
    + rewrite Hkept. unfold saved. cbn [log users set_users].
      apply lookup_insert_eq.
Qed.

(** The sibling middleware (part_001) does what C5 says: the access token
    that [generateAccessAndRefreshToken] has just returned is accepted and
    the user is attached without password and refresh token; once
    jsonwebtoken reports the token as expired, the request is refused with
    401. *)
Lemma verifyJWT_accepts_issued_token (req : Request) (u : User) (w : World) :
  users w !! user_id u = Some u →
  fault E (UserFindById (Some (user_id u))) = None →
  fault E (UserSave (with_refreshToken (Some (generateRefreshToken E u (clock w))) u)) = None →
  presented req = Some (generateAccessToken E u (clock w)) →
  generateAccessToken E u (clock w) ≠ "" →
  jwt_verify E (generateAccessToken E u (clock w))
             (process_env E !! "ACCESS_TOKEN_SECRET") (clock w)
    = inr (mkClaims (Some (user_id u))) →
  ∃ R w1,
    run E (generateAccessAndRefreshToken (user_id u)) w
      = (inr (generateAccessToken E u (clock w), R), w1)
    ∧ run E (AuthMiddleware1.verifyJWT req) w1 = (inr (attach (select_public u) req), w1)
    ∧ ∀ n e,
        jwt_verify E (generateAccessToken E u (clock w))
                   (process_env E !! "ACCESS_TOKEN_SECRET") (clock w + n) = inl e →
        run E (AuthMiddleware1.verifyJWT req) (tick n w1)
        = (inl (Js.ApiError 401 (Js.message_or e "Invalid Access Token")), tick n w1).
Proof.
  intros Hu Hfind Hsave Htok Hne Hverify.
  eexists _, _. split; [by apply generateAccessAndRefreshToken_run |]. split.
  - rewrite (verifyJWT_verified req (generateAccessToken E u (clock w))
               (mkClaims (Some (user_id u)))); try done.
    cbn [claim_id mbind option_bind saved log users set_users with_refreshToken user_id].
    rewrite lookup_insert_eq. by destruct u.
  - intros n e Hexp.
    by apply (verifyJWT_unverified req (generateAccessToken E u (clock w)) e).
Qed.

End Tokens.

Lemma rotate_rejects_superseded_token_witness :
  ∃ w1,
    run Demo.reliable (UserController.refreshAccessToken Demo.rotate_request)
        (tick 1 Demo.world)
      = (inr (refreshed (generateAccessToken Demo.reliable Demo.alice 1)
                        (generateRefreshToken Demo.reliable Demo.alice 1)), w1)
    ∧ users w1 !! "u1"
      = Some (with_refreshToken (Some (generateRefreshToken Demo.reliable Demo.alice 1))
                                Demo.alice)
    ∧ clock w1 = 1
    ∧ run Demo.reliable (UserController.refreshAccessToken Demo.rotate_request) w1
      = (inl (Js.ApiError 401 "Refresh token is expired or used"), w1).
Proof.
  unshelve epose proof
    (rotate_rejects_superseded_token Demo.reliable Demo.rotate_request
       (Demo.sign "rkey" "u1" 10) (mkClaims (Some "u1")) Demo.alice (tick 1 Demo.world)
       _ _ _ _ _ _ _ _) as (w1 & Hfirst & Hstored & Hclock & Hrefused & _).
  - vm_compute. reflexivity.
  - vm_compute. discriminate.
  - vm_compute. reflexivity.
  - reflexivity.
  - vm_compute. reflexivity.
  - reflexivity.
  - reflexivity.
  - reflexivity.
  - exists w1. split; [exact Hfirst |]. split; [exact Hstored |]. split; [exact Hclock |].
    apply Hrefused. vm_compute. discriminate.
Defined.

(** C1 as stated fails.  Alice's stored refresh token was minted at instant
    0; a rotation in that same instant mints the same token again, so the
    store holds [T] after it and a second rotation presenting [T] right
    after is answered 200 as well. *)
Lemma rotate_twice_in_one_instant_both_succeed :
  user_refreshToken <$> users Demo.world !! "u1" = Some (Some (Demo.sign "rkey" "u1" 10))
  ∧ incoming Demo.rotate_request = Some (Demo.sign "rkey" "u1" 10)
  ∧ (run Demo.reliable (UserController.refreshAccessToken Demo.rotate_request) Demo.world).1
    = inr (refreshed (Demo.sign "akey" "u1" 3) (Demo.sign "rkey" "u1" 10))
  ∧ (run Demo.reliable (UserController.refreshAccessToken Demo.rotate_request)
         (run Demo.reliable (UserController.refreshAccessToken Demo.rotate_request)
              Demo.world).2).1
    = inr (refreshed (Demo.sign "akey" "u1" 3) (Demo.sign "rkey" "u1" 10))
  ∧ user_refreshToken <$>
      users (run Demo.reliable (UserController.refreshAccessToken Demo.rotate_request)
                 Demo.world).2 !! "u1"
    = Some (Some (Demo.sign "rkey" "u1" 10))
  ∧ ∀ e,
      (run Demo.reliable (UserController.refreshAccessToken Demo.rotate_request)
           (run Demo.reliable (UserController.refreshAccessToken Demo.rotate_request)
                Demo.world).2).1 ≠ inl e.
Proof.
  do 5 (split; [vm_compute; reflexivity |]).
  intros e. vm_compute. discriminate.
Qed.

Lemma append_inj_r (p a b : string) : p +:+ a = p +:+ b → a = b.
Proof. induction p as [| c p IH]; cbn; [done |]. intros [= H]. by apply IH. Qed.

Lemma unary_inj (n m : nat) : Demo.unary n = Demo.unary m → n = m.
Proof.
  revert m; induction n as [| n IH]; intros [| m]; cbn; try done.
  intros [= H]. f_equal. by apply IH.
Qed.

(** In the deployment modelled from the spec a refresh token names its
    subject and its expiry, so the tokens minted for one user at two instants
    are the same exactly when the instants are: a rotation mints [T] again
    only in the instant [T] was issued. *)
Lemma refresh_token_minted_again (f : Action → option Js.Error) (u : User) (t0 t : nat) :
  generateRefreshToken (Demo.env f) u t = generateRefreshToken (Demo.env f) u t0 ↔ t = t0.
Proof.
  split; [| by intros ->]. cbn [Demo.env generateRefreshToken]. unfold Demo.sign.
  intros H. do 4 apply append_inj_r in H. apply unary_inj in H. lia.
Qed.

Lemma revoke_keeps_short_tokens_valid_witness :
  ∃ w',
    run Demo.reliable (UserController.logoutUser Demo.logout_request) Demo.world
      = (inr logged_out, w')
    ∧ users w' !! "u1" = Some (with_refreshToken None Demo.alice)
    ∧ (∀ i, i ≠ "u1" → users w' !! i = users Demo.world !! i)
    ∧ videos w' = videos Demo.world ∧ files w' = files Demo.world
    ∧ assets w' = assets Demo.world
    ∧ clock w' = clock Demo.world
    ∧ ∀ req n,
        (run Demo.reliable (AuthMiddleware1.verifyJWT req) (tick n w')).1
        = (run Demo.reliable (AuthMiddleware1.verifyJWT req) (tick n Demo.world)).1.
Proof.
  apply (revoke_keeps_short_tokens_valid Demo.reliable Demo.logout_request
           (select_public Demo.alice) Demo.alice Demo.world).
  - reflexivity.
  - vm_compute. reflexivity.
  - reflexivity.
Defined.

(** The two middlewares on the access token just issued to alice, and the
    second one on that token before and after she logs out and once it has
    expired. *)
Example verifyJWT_on_issued_token :
  (run Demo.reliable (UserController.generateAccessAndRefreshToken "u1") Demo.world).1
    = inr (Demo.sign "akey" "u1" 3, Demo.sign "rkey" "u1" 10)
  ∧ (run Demo.reliable (AuthMiddleware.verifyJWT Demo.access_request) Demo.world).1
    = inl (Js.ApiError 401 "jwt.verifyJWT is not a function")
  ∧ (run Demo.reliable (AuthMiddleware1.verifyJWT Demo.access_request) Demo.world).1
    = inr (attach (select_public Demo.alice) Demo.access_request)
  ∧ (run Demo.reliable (AuthMiddleware1.verifyJWT Demo.access_request)
         (run Demo.reliable (UserController.logoutUser Demo.logout_request) Demo.world).2).1
    = inr (attach (select_public Demo.alice) Demo.access_request)
  ∧ (run Demo.reliable (AuthMiddleware1.verifyJWT Demo.access_request) (tick 3 Demo.world)).1
    = inl (Js.ApiError 401 "jwt expired").
Proof. repeat split; vm_compute; reflexivity. Qed.

(** ** Two rotations in flight *)

Section Scheduling.
Context (E : Env).
Import UserController.














End Scheduling.


(** Two rotations one after the other in the instant the presented token was
    minted: the first stores the same token again and both are answered
    200. *)
Example rotations_in_turn_in_one_instant :
  outcome (interleave Demo.reliable (replicate 8 First ++ replicate 8 Second)
             (UserController.refreshAccessToken Demo.rotate_request)
             (UserController.refreshAccessToken Demo.rotate_request) Demo.world).1.1
    = Some (inr (refreshed (Demo.sign "akey" "u1" 3) (Demo.sign "rkey" "u1" 10)))
  ∧ outcome (interleave Demo.reliable (replicate 8 First ++ replicate 8 Second)
               (UserController.refreshAccessToken Demo.rotate_request)
               (UserController.refreshAccessToken Demo.rotate_request) Demo.world).1.2
    = Some (inr (refreshed (Demo.sign "akey" "u1" 3) (Demo.sign "rkey" "u1" 10))).
Proof. split; vm_compute; reflexivity. Qed.


(** * Further properties of the handlers *)

(** ** The public id read off an asset URL *)

Lemma split_nonempty (sep : Ascii.ascii) (s : string) : Js.split sep s ≠ [].
Proof.
  destruct s as [| c s]; simpl; [done |].
  destruct (Ascii.eqb c sep); [done |]. by destruct (Js.split sep s).
Qed.

Lemma split_none (sep : Ascii.ascii) (s : string) :
  occurs sep s = false → Js.split sep s = [s].
Proof.
  induction s as [| c s IH]; simpl; [done |].
  intros [Hc Hs]%orb_false_elim. rewrite Hc, (IH Hs). done.
Qed.

Lemma split_append (sep : Ascii.ascii) (a b : string) :
  Js.split sep (a +:+ String sep b) = Js.split sep a ++ Js.split sep b.
Proof.
  induction a as [| c a IH]; simpl.
  - by rewrite Ascii.eqb_refl.
  - rewrite IH. destruct (Ascii.eqb c sep); [done |].
    pose proof (split_nonempty sep a). by destruct (Js.split sep a).
Qed.

Lemma split_parts (sep : Ascii.ascii) (s p : string) :
  p ∈ Js.split sep s → occurs sep p = false.
Proof.
  revert p; induction s as [| c s IH]; simpl; intros p Hp.
  - by apply list_elem_of_singleton in Hp as ->.
  - destruct (Ascii.eqb c sep) eqn:Hc.
    + apply elem_of_cons in Hp as [-> | Hp]; [done | by apply IH].
    + pose proof (split_nonempty sep s).
      destruct (Js.split sep s) as [| h t] eqn:Hsplit; [done |].
      apply elem_of_cons in Hp as [-> | Hp].
      * simpl. rewrite Hc. apply IH. by left.
      * apply IH. by right.
Qed.

Lemma split_first_within (sep c : Ascii.ascii) (s : string) :
  occurs c s = false → occurs c (Js.first_part (Js.split sep s)) = false.
Proof.
  induction s as [| a s IH]; simpl; [done |].
  intros [Ha Hs]%orb_false_elim.
  destruct (Ascii.eqb a sep); [done |].
  pose proof (split_nonempty sep s).
  destruct (Js.split sep s) as [| h t]; [done |]. simpl in *. by rewrite Ha, IH.
Qed.

Lemma last_part_in (xs : list string) : xs ≠ [] → Js.last_part xs ∈ xs.
Proof.
  unfold Js.last_part. induction xs as [| x xs IH]; [done |]. intros _.
  destruct xs as [| y ys]; [by left |]. right. by apply IH.
Qed.

Lemma first_part_in (xs : list string) : xs ≠ [] → Js.first_part xs ∈ xs.
Proof. destruct xs; [done |]. intros _. by left. Qed.

Lemma last_part_app (xs ys : list string) :
  ys ≠ [] → Js.last_part (xs ++ ys) = Js.last_part ys.
Proof.
  unfold Js.last_part. intros Hys. induction xs as [| x xs IH]; [done |].
  simpl. destruct (xs ++ ys) eqn:Happ; [| done].
  by apply app_eq_nil in Happ as [_ ?].
Qed.

(** Whatever the URL, the public id [deleteFromCloudinary] hands to
    Cloudinary (the last of the parts between slashes, up to its first dot)
    holds neither a slash nor a dot: the folders of the URL never reach it. *)
Theorem publicId_of_has_no_separator (fileUrl : string) :
  occurs "/" (Cloudinary.publicId_of fileUrl) = false
  ∧ occurs "." (Cloudinary.publicId_of fileUrl) = false.
Proof.
  unfold Cloudinary.publicId_of. split.
  - apply split_first_within. apply (split_parts "/" fileUrl).
    apply last_part_in, split_nonempty.
  - apply (split_parts "." (Js.last_part (Js.split "/" fileUrl))).
    apply first_part_in, split_nonempty.
Qed.

(** For a URL [folder/name.extension] whose name holds no slash and no dot and
    whose extension holds no slash, the public id is [name], whatever the
    folder part is. *)
Theorem publicId_of_file_name (folder name extension : string) :
  occurs "/" name = false → occurs "." name = false → occurs "/" extension = false →
  Cloudinary.publicId_of (folder +:+ "/" +:+ name +:+ "." +:+ extension) = name.
Proof.
  intros Hslash Hdot Hext. unfold Cloudinary.publicId_of.
  change (folder +:+ "/" +:+ name +:+ "." +:+ extension)
    with (folder +:+ String "/" (name +:+ String "." extension)).
  rewrite split_append.
  rewrite last_part_app by apply split_nonempty.
  rewrite (split_none "/" (name +:+ String "." extension)).
  - unfold Js.last_part. cbn [List.last].
    rewrite split_append, (split_none "." name) by done. done.
  - clear Hdot. induction name as [| c name IH]; simpl in *.
    + done.
    + apply orb_false_elim in Hslash as [-> Hslash]. by apply IH.
Qed.

Lemma publicId_of_file_name_witness :
  Cloudinary.publicId_of
    ("https://cdn.test/demo/image/upload/v1" +:+ "/" +:+ "old" +:+ "." +:+ "jpg") = "old".
Proof.
  apply (publicId_of_file_name "https://cdn.test/demo/image/upload/v1" "old" "jpg");
    reflexivity.
Defined.

(** ** The Cloudinary helpers at their edges *)

Section CloudinaryEdges.
Context (E : Env).
Import Cloudinary.

(** When the upload fails and the staged file is not on disk either,
    [uploadOnCloudinary] does not return null: the [fs.unlinkSync] of its
    catch block throws, and that error leaves the function.  One upload and
    one unlink were attempted and nothing has changed. *)
Theorem uploadOnCloudinary_missing_file (path : string) (w : World) :
  path ≠ "" → path ∉ files w → is_Some (fault E (CloudinaryUpload path)) →
  ∃ w',
    run E (uploadOnCloudinary (Some path)) w = (inl ENOENT, w')
    ∧ events_since w w' = [(CloudinaryUpload path, false); (FsUnlinkSync path, false)]
    ∧ users w' = users w ∧ videos w' = videos w ∧ files w' = files w
    ∧ assets w' = assets w.
Proof.
  intros Hne Hmissing [e He]. unfold uploadOnCloudinary.
  rewrite truthy_Some by done. cbn [negb]. rewrite run_try_catch, run_bind.
  rewrite (run_call E (CloudinaryUpload path)). unfold perform at 1.
  cbn [is_async mutating]. rewrite He.
  rewrite run_bind, (run_call E (FsUnlinkSync path)). unfold perform.
  cbn [is_async effect]. rewrite decide_False by done.
  eexists. split; [reflexivity |]. cbn [log files users videos assets].
  split; [| by repeat split].
  apply events_since_app. cbn [log trace]. by rewrite <- app_assoc.
Qed.

(** [deleteFromCloudinary] never throws and never touches the database or the
    staged files.  With an empty URL it does nothing; when the destroy call
    fails it returns null and the assets are as before; otherwise it makes
    one destroy call for the public id of the URL, the asset is gone
    afterwards, and the result says whether it was there. *)
Theorem deleteFromCloudinary_never_throws (fileUrl : string) (w : World) :
  ∃ r w',
    run E (deleteFromCloudinary fileUrl) w = (inr r, w')
    ∧ users w' = users w ∧ videos w' = videos w ∧ files w' = files w
    ∧ (fileUrl = "" → r = None ∧ w' = w)
    ∧ (is_Some (fault E (CloudinaryDestroy (publicId_of fileUrl) (resourceType_of fileUrl))) →
       r = None ∧ assets w' = assets w)
    ∧ (fileUrl ≠ "" →
       fault E (CloudinaryDestroy (publicId_of fileUrl) (resourceType_of fileUrl)) = None →
       r = Some (if decide (publicId_of fileUrl ∈ assets w) then "ok" else "not found")
       ∧ assets w' = assets w ∖ {[publicId_of fileUrl]}
       ∧ events_since w w'
         = [(CloudinaryDestroy (publicId_of fileUrl) (resourceType_of fileUrl), true)]).
Proof.
  unfold deleteFromCloudinary. rewrite run_try_catch.
  destruct (String.eqb_spec fileUrl "") as [-> | Hne].
  - exists None, w. cbn. by repeat split.
  - rewrite truthy_Some by done. cbn [negb].
    rewrite run_bind, (run_call E (CloudinaryDestroy _ _)). unfold perform.
    cbn [is_async mutating].
    destruct (fault E (CloudinaryDestroy _ _)) as [e |].
    + eexists _, _. split; [reflexivity |]. cbn [log users videos files assets].
      by repeat split.
    + cbn [effect]. eexists _, _. split; [reflexivity |].
      cbn [log users videos files assets set_assets].
      repeat split; try done; try by intros [? ?].
      apply events_since_app. done.
Qed.

End CloudinaryEdges.

Lemma uploadOnCloudinary_missing_file_witness :
  ∃ w',
    run Demo.uploads_fail (Cloudinary.uploadOnCloudinary (Some "tmp/gone.jpg")) Demo.world
      = (inl ENOENT, w')
    ∧ events_since Demo.world w'
      = [(CloudinaryUpload "tmp/gone.jpg", false); (FsUnlinkSync "tmp/gone.jpg", false)]
    ∧ users w' = users Demo.world ∧ videos w' = videos Demo.world
    ∧ files w' = files Demo.world ∧ assets w' = assets Demo.world.
Proof.
  apply (uploadOnCloudinary_missing_file Demo.uploads_fail "tmp/gone.jpg" Demo.world).
  - discriminate.
  - apply (bool_decide_unpack _). vm_compute. exact I.
  - vm_compute. eauto.
Defined.

(** ** Replacing the avatar: what is stored and what is answered *)

Section AvatarOutcomes.
Context (E : Env).
Import Cloudinary UserController.

Lemma updateUserAvatar_after_upload
    (req : Request) (path : string) (current : User) (w : World) :
  file_path req = Some path → path ≠ "" → path ∈ files w →
  fault E (CloudinaryUpload path) = None →
  secure_url (upload_response E path) ≠ "" →
  user req = Some current →
  run E (updateUserAvatar req) w =
  run E (updated ← call (UserFindByIdAndUpdate (Some (user_id current))
                           (SetAvatar (secure_url (upload_response E path))));
         delete_if_present (user_avatar current);;
         Ret (mkResponse 200 [] []
                (mkApiResponse 200 (DataUser (select_no_password <$> updated))
                               "Avatar image updated successfully")))
      (after_upload E path w).
Proof.
  intros Hfile Hne Hin Hup Hurl Huser. unfold updateUserAvatar.
  rewrite Hfile, truthy_Some by done. change (negb true) with false.
  rewrite run_pass, run_bind, uploadOnCloudinary_run by done.
  unfold upload_result. rewrite Hup. cbv beta iota.
  rewrite truthy_Some by done. change (negb true) with false.
  by rewrite run_pass, Huser.
Qed.

(** When the upload and the database write go through, [updateUserAvatar]
    answers 200, the stored user carries the new secure URL, and the staged
    file is gone.  The user in the answer has no password but still carries
    the stored refresh token (only [-password] is selected).  The calls are,
    in this order: upload, unlink, update, and the destroy of the avatar the
    request's user had. *)
Theorem updateUserAvatar_replaces_avatar
    (req : Request) (path : string) (current stored : User) (w : World) :
  file_path req = Some path → path ≠ "" → path ∈ files w →
  fault E (CloudinaryUpload path) = None →
  secure_url (upload_response E path) ≠ "" →
  user req = Some current →
  users w !! user_id current = Some stored →
  fault E (UserFindByIdAndUpdate (Some (user_id current))
             (SetAvatar (secure_url (upload_response E path)))) = None →
  ∃ answered w',
    run E (updateUserAvatar req) w =
      (inr (mkResponse 200 [] []
              (mkApiResponse 200 (DataUser (Some answered))
                             "Avatar image updated successfully")), w')
    ∧ users w' !! user_id current
      = Some (with_avatar (secure_url (upload_response E path)) stored)
    ∧ user_password answered = None
    ∧ user_refreshToken answered = user_refreshToken stored
    ∧ (path ∉ files w')
    ∧ events_since w w' =
        ([(CloudinaryUpload path, true); (FsUnlinkSync path, true);
          (UserFindByIdAndUpdate (Some (user_id current))
             (SetAvatar (secure_url (upload_response E path))), true)]
         ++ destroy_events E (user_avatar current)).
Proof.
  intros Hfile Hne Hin Hup Hurl Huser Hstored Hwrite.
  rewrite (updateUserAvatar_after_upload req path current) by done.
  rewrite run_bind, (run_call E (UserFindByIdAndUpdate _ _)).
  unfold perform. cbn [is_async]. rewrite Hwrite. cbn [effect mbind option_bind].
  destruct (after_upload_users E path w) as (Husers & _ & _).
  rewrite Husers, Hstored. cbn [fmap option_fmap option_map].
  rewrite run_bind, delete_if_present_run. cbn [run].
  eexists _, _. split; [reflexivity |].
  set (new := secure_url (upload_response E path)).
  set (w1 := log _ _).
  destruct (after_delete_frame E (user_avatar current) w1) as (Hu & _ & Hf).
  rewrite Hu, Hf. unfold w1. cbn [log users set_users files].
  split; [by rewrite lookup_insert_eq |].
  split; [done |]. split; [by destruct stored |].
  split.
  - rewrite after_upload_files. intros [_ Hn]%elem_of_difference.
    apply Hn. by apply elem_of_singleton.
  - apply events_since_app. rewrite after_delete_events. cbn [log trace set_users].
    rewrite after_upload_trace, Hup. by rewrite <- !app_assoc.
Qed.

(** When the upload went through and the database write fails,
    [updateUserAvatar] fails with the database's error: the users are as
    before and the old avatar is not destroyed, but the new asset stays on
    Cloudinary with no user naming it, and the staged file is gone. *)
Theorem updateUserAvatar_write_failure
    (req : Request) (path : string) (current : User) (e : Js.Error) (w : World) :
  file_path req = Some path → path ≠ "" → path ∈ files w →
  fault E (CloudinaryUpload path) = None →
  secure_url (upload_response E path) ≠ "" →
  user req = Some current →
  fault E (UserFindByIdAndUpdate (Some (user_id current))
             (SetAvatar (secure_url (upload_response E path)))) = Some e →
  ∃ w',
    run E (updateUserAvatar req) w = (inl e, w')
    ∧ users w' = users w
    ∧ public_id (upload_response E path) ∈ assets w'
    ∧ Forall (λ ev, is_destroy ev = false) (events_since w w')
    ∧ (path ∉ files w').
Proof.
  intros Hfile Hne Hin Hup Hurl Huser Hwrite.
  rewrite (updateUserAvatar_after_upload req path current) by done.
  rewrite run_bind, (run_call E (UserFindByIdAndUpdate _ _)).
  unfold perform. cbn [is_async mutating]. rewrite Hwrite.
  eexists. split; [reflexivity |]. cbn [log users assets files].
  destruct (after_upload_users E path w) as (-> & _ & _).
  split; [done |]. split; [| split].
  - unfold after_upload. rewrite Hup. cbn [log set_files set_assets assets].
    apply elem_of_union_l. by apply elem_of_singleton.
  - rewrite (events_since_app w _
               [(CloudinaryUpload path, true); (FsUnlinkSync path, true);
                (UserFindByIdAndUpdate (Some (user_id current))
                   (SetAvatar (secure_url (upload_response E path))), false)]).
    + by repeat constructor.
    + cbn [log trace]. rewrite after_upload_trace, Hup. by rewrite <- !app_assoc.
  - rewrite after_upload_files. intros [_ Hn]%elem_of_difference.
    apply Hn. by apply elem_of_singleton.
Qed.

End AvatarOutcomes.

Lemma updateUserAvatar_replaces_avatar_witness :
  ∃ answered w',
    run Demo.reliable (UserController.updateUserAvatar Demo.image_request) Demo.world =
      (inr (mkResponse 200 [] []
              (mkApiResponse 200 (DataUser (Some answered))
                             "Avatar image updated successfully")), w')
    ∧ users w' !! user_id (select_public Demo.alice)
      = Some (with_avatar (secure_url (upload_response Demo.reliable "tmp/upload.jpg"))
                          Demo.alice)
    ∧ user_password answered = None
    ∧ user_refreshToken answered = user_refreshToken Demo.alice
    ∧ ("tmp/upload.jpg" ∉ files w')
    ∧ events_since Demo.world w' =
        ([(CloudinaryUpload "tmp/upload.jpg", true); (FsUnlinkSync "tmp/upload.jpg", true);
          (UserFindByIdAndUpdate (Some (user_id (select_public Demo.alice)))
             (SetAvatar (secure_url (upload_response Demo.reliable "tmp/upload.jpg"))), true)]
         ++ destroy_events Demo.reliable (user_avatar (select_public Demo.alice))).
Proof.
  apply (updateUserAvatar_replaces_avatar Demo.reliable Demo.image_request "tmp/upload.jpg"
           (select_public Demo.alice) Demo.alice Demo.world).
  - reflexivity.
  - discriminate.
  - vm_compute. reflexivity.
  - reflexivity.
  - vm_compute. discriminate.
  - reflexivity.
  - vm_compute. reflexivity.
  - reflexivity.
Defined.

Lemma updateUserAvatar_write_failure_witness :
  ∃ w',
    run Demo.user_updates_fail (UserController.updateUserAvatar Demo.image_request) Demo.world
      = (inl Demo.Unreachable, w')
    ∧ users w' = users Demo.world
    ∧ public_id (upload_response Demo.user_updates_fail "tmp/upload.jpg") ∈ assets w'
    ∧ Forall (λ ev, is_destroy ev = false) (events_since Demo.world w')
    ∧ ("tmp/upload.jpg" ∉ files w').
Proof.
  apply (updateUserAvatar_write_failure Demo.user_updates_fail Demo.image_request
           "tmp/upload.jpg" (select_public Demo.alice) Demo.Unreachable Demo.world).
  - reflexivity.
  - discriminate.
  - vm_compute. reflexivity.
  - reflexivity.
  - vm_compute. discriminate.
  - reflexivity.
  - reflexivity.
Defined.

(** ** Issuing, rotating and revoking: the remaining outcomes *)

Section TokenOutcomes.
Context (E : Env).
Import UserController.

(** [generateAccessAndRefreshToken] either returns a pair of tokens after
    storing the refresh token of that pair on the user it found, or throws
    [ApiError 500] and leaves the users as they were; no other error leaves
    it. *)
Theorem generateAccessAndRefreshToken_stores_or_500 (userId : string) (w : World) :
  match run E (generateAccessAndRefreshToken userId) w with
  | (inr (accessToken, refreshToken), w') =>
      ∃ u, users w !! userId = Some u
           ∧ users w' = <[user_id u := with_refreshToken (Some refreshToken) u]> (users w)
  | (inl e, w') =>
      e = Js.ApiError 500 " something went wrong while generating access and refresh token"
      ∧ users w' = users w
  end.
Proof.
  unfold generateAccessAndRefreshToken. rewrite run_try_catch, run_bind.
  rewrite (run_call E (UserFindById _)). unfold perform. cbn [is_async mutating].
  destruct (fault E (UserFindById (Some userId))) as [e |]; [done |].
  cbn [effect mbind option_bind].
  destruct (users w !! userId) as [u |] eqn:Hu; [| done]. cbv beta iota.
  rewrite run_bind, (run_call E (GenerateAccessToken u)).
  unfold perform at 1. cbn [is_async effect]. cbv beta iota.
  rewrite run_bind, (run_call E (GenerateRefreshToken u)).
  unfold perform at 1. cbn [is_async effect]. cbv beta iota.
  rewrite run_bind, (run_call E (UserSave _)).
  unfold perform. cbn [is_async mutating].
  destruct (fault E (UserSave _)) as [e |]; [done |].
  cbn [effect with_refreshToken user_id].
  destruct (users w !! user_id u) as [u' |]; [| done].
  cbn [run]. exists u. done.
Qed.

(** Whatever the request and whatever fails on the way, [refreshAccessToken]
    either answers 200 or throws [ApiError 401]: every other error, the 500
    of [generateAccessAndRefreshToken] included, is rethrown as a 401. *)
Theorem refreshAccessToken_answers_200_or_401 (req : Request) (w : World) :
  match (run E (refreshAccessToken req) w).1 with
  | inr response => status response = 200
  | inl e => ∃ m, e = Js.ApiError 401 m
  end.
Proof.
  unfold refreshAccessToken. fold (incoming req).
  destruct (incoming req) as [token |]; [| eexists; reflexivity].
  destruct (negb (Js.truthy (Some token))); [eexists; reflexivity |].
  rewrite run_try_catch.
  destruct (run E _ w) as [[e | response] w'] eqn:Hrun; cbn [run fst].
  { eexists; reflexivity. }
  rewrite run_bind, process_env_run in Hrun. cbv beta iota in Hrun.
  rewrite run_bind, jwt_verify_run in Hrun.
  destruct (jwt_verify E token _ (clock w)) as [e | claims]; [done |].
  cbv beta iota in Hrun. rewrite run_bind in Hrun.
  destruct (@run (option User) E (call (UserFindById (claim_id claims))) w)
    as [[e | found] w1]; cbv beta iota in Hrun; [done |].
  destruct found as [u |]; [| done].
  destruct (decide (Some token ≠ user_refreshToken u)); [done |].
  rewrite run_bind in Hrun.
  destruct (run E (generateAccessAndRefreshToken (user_id u)) w1) as [[e | [A R]] w2];
    cbv beta iota in Hrun; [done |].
  cbn [run] in Hrun. by injection Hrun as <- _.
Qed.

(** A rotation that presents the stored refresh token and then cannot save
    the new one tells the client 401, with the message of the inner 500; the
    stored token is still the presented one, so the client can try again. *)
Theorem refreshAccessToken_save_failure_is_401
    (req : Request) (T : string) (claims : Claims) (u : User) (e : Js.Error) (w : World) :
  incoming req = Some T → T ≠ "" →
  jwt_verify E T (process_env E !! "REFRESH_TOKEN_SECRET") (clock w) = inr claims →
  claim_id claims = Some (user_id u) →
  users w !! user_id u = Some u →
  user_refreshToken u = Some T →
  fault E (UserFindById (Some (user_id u))) = None →
  fault E (UserSave (with_refreshToken (Some (generateRefreshToken E u (clock w))) u)) = Some e →
  ∃ w',
    run E (refreshAccessToken req) w =
      (inl (Js.ApiError 401 " something went wrong while generating access and refresh token"),
       w')
    ∧ users w' = users w.
Proof.
  intros Hin Hne Hverify Hid Hu Hstored Hfind Hsave.
  rewrite (refreshAccessToken_found E req T claims u) by done.
  rewrite Hstored, decide_False by (by intros []).
  rewrite run_try_catch, run_bind.
  unfold generateAccessAndRefreshToken.
  rewrite run_try_catch, run_bind, find_user_run by done.
  change (Some (user_id u) ≫= λ i, users w !! i) with (users w !! user_id u).
  rewrite Hu. cbv beta iota.
  rewrite run_bind, (run_call E (GenerateAccessToken u)).
  unfold perform at 1. cbn [is_async effect]. cbv beta iota.
  rewrite run_bind, (run_call E (GenerateRefreshToken u)).
  unfold perform at 1. cbn [is_async effect]. cbv beta iota.
  rewrite run_bind, (run_call E (UserSave _)).
  unfold perform. cbn [is_async mutating]. rewrite Hsave.
  eexists. split; [reflexivity | done].
Qed.

(** Issue, then rotate.  With every call going through, the refresh token
    [generateAccessAndRefreshToken] returns is the one it stored, no other
    user is touched, and a rotation that presents that token (while it
    verifies) succeeds and stores the token it answers with. *)
Theorem issued_refresh_token_rotates (u : User) (w : World) :
  users w !! user_id u = Some u →
  (∀ a, fault E a = None) →
  ∃ A R w1,
    run E (generateAccessAndRefreshToken (user_id u)) w = (inr (A, R), w1)
    ∧ user_refreshToken <$> users w1 !! user_id u = Some (Some R)
    ∧ (∀ i, i ≠ user_id u → users w1 !! i = users w !! i)
    ∧ ∀ req claims,
        incoming req = Some R → R ≠ "" →
        jwt_verify E R (process_env E !! "REFRESH_TOKEN_SECRET") (clock w1) = inr claims →
        claim_id claims = Some (user_id u) →
        ∃ A' R' w2,
          run E (refreshAccessToken req) w1 = (inr (refreshed A' R'), w2)
          ∧ user_refreshToken <$> users w2 !! user_id u = Some (Some R').
Proof.
  intros Hu Hfault.
  eexists _, _, _. split; [by apply generateAccessAndRefreshToken_run |].
  set (R := generateRefreshToken E u (clock w)).
  assert (users (saved (with_refreshToken (Some R) u) w) !! user_id u
          = Some (with_refreshToken (Some R) u)) as Hu1.
  { unfold saved. cbn [log users set_users with_refreshToken user_id].
    apply lookup_insert_eq. }
  split; [by rewrite Hu1 |]. split.
  { intros i Hi. unfold saved. cbn [log users set_users with_refreshToken user_id].
    by rewrite lookup_insert_ne. }
  intros req claims Hin Hne Hverify Hid.
  eexists _, _, _. split.
  - apply (rotate_succeeds E req R claims (with_refreshToken (Some R) u)); try done.
  - unfold saved. cbn [log users set_users with_refreshToken user_id].
    by rewrite lookup_insert_eq.
Qed.

(** Logout, then rotate.  Once [logoutUser] has answered, a rotation that
    presents any refresh token of that user, however valid its signature and
    expiry, is refused with 401 and changes nothing. *)
Theorem logout_revokes_refresh_token
    (req0 req : Request) (u u0 : User) (T : string) (claims : Claims) (w : World) :
  user req0 = Some u →
  users w !! user_id u = Some u0 → user_id u0 = user_id u →
  fault E (UserFindByIdAndUpdate (Some (user_id u)) UnsetRefreshToken) = None →
  incoming req = Some T → T ≠ "" →
  jwt_verify E T (process_env E !! "REFRESH_TOKEN_SECRET") (clock w) = inr claims →
  claim_id claims = Some (user_id u) →
  fault E (UserFindById (Some (user_id u))) = None →
  ∃ w',
    run E (logoutUser req0) w = (inr logged_out, w')
    ∧ run E (refreshAccessToken req) w' =
        (inl (Js.ApiError 401 "Refresh token is expired or used"), w').
Proof.
  intros Huser Hu0 Hkey Hfault Hin Hne Hverify Hid Hfind.
  unfold logoutUser. rewrite Huser.
  rewrite run_bind, (run_call E (UserFindByIdAndUpdate _ _)).
  unfold perform. cbn [is_async]. rewrite Hfault. cbn [effect mbind option_bind].
  rewrite Hu0. cbn [fmap option_fmap option_map].
  eexists. split; [reflexivity |].
  apply (rotate_refused E req T claims (with_refreshToken None u0)); try done.
  - cbn [with_refreshToken user_id]. by rewrite Hkey.
  - cbn [with_refreshToken user_id log users set_users apply_user_update].
    rewrite Hkey. apply lookup_insert_eq.
  - cbn [with_refreshToken user_id]. by rewrite Hkey.
Qed.

End TokenOutcomes.

Lemma refreshAccessToken_save_failure_is_401_witness :
  ∃ w',
    run Demo.saves_fail (UserController.refreshAccessToken Demo.rotate_request) Demo.world =
      (inl (Js.ApiError 401 " something went wrong while generating access and refresh token"),
       w')
    ∧ users w' = users Demo.world.
Proof.
  apply (refreshAccessToken_save_failure_is_401 Demo.saves_fail Demo.rotate_request
           (Demo.sign "rkey" "u1" 10) (mkClaims (Some "u1")) Demo.alice Demo.Unreachable
           Demo.world).
  - vm_compute. reflexivity.
  - vm_compute. discriminate.
  - vm_compute. reflexivity.
  - reflexivity.
  - vm_compute. reflexivity.
  - reflexivity.
  - reflexivity.
  - reflexivity.
Defined.

Lemma issued_refresh_token_rotates_witness :
  ∃ A R w1,
    run Demo.reliable (UserController.generateAccessAndRefreshToken (user_id Demo.alice))
        Demo.world = (inr (A, R), w1)
    ∧ user_refreshToken <$> users w1 !! user_id Demo.alice = Some (Some R)
    ∧ (∀ i, i ≠ user_id Demo.alice → users w1 !! i = users Demo.world !! i)
    ∧ ∀ req claims,
        incoming req = Some R → R ≠ "" →
        jwt_verify Demo.reliable R (process_env Demo.reliable !! "REFRESH_TOKEN_SECRET")
                   (clock w1) = inr claims →
        claim_id claims = Some (user_id Demo.alice) →
        ∃ A' R' w2,
          run Demo.reliable (UserController.refreshAccessToken req) w1
            = (inr (refreshed A' R'), w2)
          ∧ user_refreshToken <$> users w2 !! user_id Demo.alice = Some (Some R').
Proof.
  apply (issued_refresh_token_rotates Demo.reliable Demo.alice Demo.world).
  - vm_compute. reflexivity.
  - intros a. reflexivity.
Defined.

Lemma logout_revokes_refresh_token_witness :
  ∃ w',
    run Demo.reliable (UserController.logoutUser Demo.logout_request) Demo.world
      = (inr logged_out, w')
    ∧ run Demo.reliable (UserController.refreshAccessToken Demo.rotate_request) w' =
        (inl (Js.ApiError 401 "Refresh token is expired or used"), w').
Proof.
  apply (logout_revokes_refresh_token Demo.reliable Demo.logout_request Demo.rotate_request
           (select_public Demo.alice) Demo.alice (Demo.sign "rkey" "u1" 10)
           (mkClaims (Some "u1")) Demo.world).
  - reflexivity.
  - vm_compute. reflexivity.
  - reflexivity.
  - reflexivity.
  - vm_compute. reflexivity.
  - vm_compute. discriminate.
  - vm_compute. reflexivity.
  - reflexivity.
  - reflexivity.
Defined.

(** ** The auth middlewares and the logout route *)

Section Authentication.
Context (E : Env).

(** The ways [verifyJWT] can go, by the token presented. *)
Lemma verifyJWT_cases (req : Request) (w : World) :
  run E (AuthMiddleware1.verifyJWT req) w =
  (match presented req with
   | Some t =>
       if Js.truthy (Some t) then
         match jwt_verify E t (process_env E !! "ACCESS_TOKEN_SECRET") (clock w) with
         | inr claims =>
             match fault E (UserFindById (claim_id claims)) with
             | None =>
                 match claim_id claims ≫= λ i, users w !! i with
                 | Some u => inr (attach (select_public u) req)
                 | None => inl (Js.ApiError 401 "Invalid Access Token")
                 end
             | Some e => inl (Js.ApiError 401 (Js.message_or e "Invalid Access Token"))
             end
         | inl e => inl (Js.ApiError 401 (Js.message_or e "Invalid Access Token"))
         end
       else inl (Js.ApiError 401 "Unauthorized request")
   | None => inl (Js.ApiError 401 "Unauthorized request")
   end, w).
Proof.
  destruct (Js.truthy (presented req)) eqn:Htruthy.
  - apply truthy_default in Htruthy as [Htok Hne].
    set (t := default "" (presented req)) in *. rewrite Htok, truthy_Some by done.
    destruct (jwt_verify E t _ (clock w)) as [e | claims] eqn:Hv.
    + by apply (verifyJWT_unverified E req t e).
    + destruct (fault E (UserFindById (claim_id claims))) as [e |] eqn:Hf.
      * by apply (verifyJWT_lookup_failed E req t claims).
      * by apply (verifyJWT_verified E req t claims).
  - rewrite verifyJWT_no_token by done.
    destruct (presented req) as [t |]; [| done]. by rewrite Htruthy.
Qed.

(** [verifyJWT] (unnamed/part_001) changes nothing in the world.  It either
    passes on the request with a user attached that carries neither password
    nor refresh token, or throws [ApiError 401]; it fails with no other
    status, also when the database lookup fails. *)
Theorem verifyJWT_attaches_public_user_or_401 (req : Request) (w : World) :
  ∃ r,
    run E (AuthMiddleware1.verifyJWT req) w = (r, w)
    ∧ match r with
      | inr req' =>
          ∃ u, req' = attach u req ∧ user_password u = None ∧ user_refreshToken u = None
      | inl e => ∃ m, e = Js.ApiError 401 m
      end.
Proof.
  rewrite verifyJWT_cases. eexists. split; [reflexivity |].
  destruct (presented req) as [t |]; [| eexists; reflexivity].
  destruct (Js.truthy (Some t)); [| eexists; reflexivity].
  destruct (jwt_verify E t _ (clock w)) as [e | claims]; [eexists; reflexivity |].
  destruct (fault E _); [eexists; reflexivity |].
  destruct (claim_id claims ≫= _) as [u |]; [| eexists; reflexivity].
  exists (select_public u). by destruct u.
Qed.

Lemma prefix_append (pat s : string) : String.prefix pat (pat +:+ s) = true.
Proof.
  induction pat as [| c pat IH]; [destruct s; reflexivity |].
  simpl. case_match; [done | congruence].
Qed.

Lemma drop_append (pat s : string) : Js.drop (String.length pat) (pat +:+ s) = s.
Proof. induction pat as [| c pat IH]; [reflexivity | exact IH]. Qed.

Lemma replace_at_start (pat rep s : string) :
  Js.replace pat rep (pat +:+ s) = rep +:+ s.
Proof.
  assert (∀ x, Js.replace pat rep x =
               if String.prefix pat x then rep +:+ Js.drop (String.length pat) x
               else match x with
                    | EmptyString => EmptyString
                    | String c x' => String c (Js.replace pat rep x')
                    end) as Hunfold by (by intros []).
  by rewrite Hunfold, prefix_append, drop_append.
Qed.

(** A token sent as [Authorization: Bearer <token>] by a request without an
    access-token cookie is treated exactly as the same token sent in the
    cookie: the same user is attached, or the same error is thrown. *)
Theorem verifyJWT_bearer_header_as_cookie
    (with_header with_cookie : Request) (t : string) (w : World) :
  t ≠ "" →
  Js.truthy (cookies with_header !! "accessToken") = false →
  headers with_header !! "Authorization" = Some ("Bearer " +:+ t) →
  cookies with_cookie !! "accessToken" = Some t →
  principal_of (run E (AuthMiddleware1.verifyJWT with_header) w)
  = principal_of (run E (AuthMiddleware1.verifyJWT with_cookie) w).
Proof.
  intros Hne Hnone Hheader Hcookie.
  assert (presented with_header = Some t) as H1.
  { unfold presented, Js.or. rewrite Hnone, Hheader. cbn [fmap option_fmap option_map].
    by rewrite replace_at_start. }
  assert (presented with_cookie = Some t) as H2.
  { unfold presented, Js.or. by rewrite Hcookie, truthy_Some. }
  rewrite !verifyJWT_cases, H1, H2. unfold principal_of. cbn [fst].
  rewrite truthy_Some by done.
  destruct (jwt_verify E t _ (clock w)) as [e | claims]; [done |].
  destruct (fault E _); [done |].
  by destruct (claim_id claims ≫= _).
Qed.

(** The optional middleware is the strict one with its failures turned into
    an anonymous pass: where [verifyJWT] attaches a user, [verifyJWTOptional]
    hands on the same request; where [verifyJWT] throws, it hands on the
    request unchanged. *)
Theorem verifyJWTOptional_follows_verifyJWT (req : Request) (w : World) :
  run E (AuthOptionalMiddleware.verifyJWTOptional req) w =
  (inr match (run E (AuthMiddleware1.verifyJWT req) w).1 with
       | inr req' => req'
       | inl _ => req
       end, w).
Proof.
  rewrite verifyJWT_cases. cbn [fst].
  unfold AuthOptionalMiddleware.verifyJWTOptional. fold (presented req).
  rewrite run_bind, run_try_catch.
  destruct (presented req) as [t |]; [| done]. change (default "" (Some t)) with t.
  destruct (Js.truthy (Some t)); [| done]. cbn [negb].
  rewrite run_bind, process_env_run. cbv beta iota.
  rewrite run_bind, jwt_verify_run.
  destruct (jwt_verify E t _ (clock w)) as [e | claims]; [done |]. cbv beta iota.
  rewrite run_bind, (run_call E (UserFindById _)). unfold perform. cbn [is_async mutating].
  destruct (fault E _); [done |]. cbn [effect].
  by destruct (claim_id claims ≫= _).
Qed.

(** POST /logout, [verifyJWT] (unnamed/part_001) and [logoutUser] together:
    with an access token that verifies for a stored user, the route answers
    "User Logged Out", the refresh token of that user, and of nobody else, is
    unset, and nothing else about the user changes. *)
Theorem logout_route_revokes_token_subject
    (req : Request) (t id : string) (claims : Claims) (stored : User) (w : World) :
  presented req = Some t → t ≠ "" →
  jwt_verify E t (process_env E !! "ACCESS_TOKEN_SECRET") (clock w) = inr claims →
  claim_id claims = Some id →
  users w !! id = Some stored → user_id stored = id →
  fault E (UserFindById (Some id)) = None →
  fault E (UserFindByIdAndUpdate (Some id) UnsetRefreshToken) = None →
  ∃ w',
    run E (UserRoutes.logout req) w = (inr logged_out, w')
    ∧ users w' !! id = Some (with_refreshToken None stored)
    ∧ ∀ i, i ≠ id → users w' !! i = users w !! i.
Proof.
  intros Htok Hne Hverify Hid Hstored Hkey Hfind Hwrite.
  unfold UserRoutes.logout. rewrite run_bind, verifyJWT_cases, Htok, truthy_Some by done.
  rewrite Hverify, Hid, Hfind. cbn [mbind option_bind]. rewrite Hstored.
  unfold UserController.logoutUser. cbn [attach user].
  assert (user_id (select_public stored) = id) as -> by (by destruct stored).
  rewrite run_bind, (run_call E (UserFindByIdAndUpdate _ _)).
  unfold perform. cbn [is_async]. rewrite Hwrite. cbn [effect mbind option_bind].
  rewrite Hstored. cbn [fmap option_fmap option_map].
  eexists. split; [reflexivity |]. cbn [log users set_users apply_user_update].
  split; [by rewrite lookup_insert_eq |].
  intros i Hi. by rewrite lookup_insert_ne.
Qed.

End Authentication.

Lemma verifyJWT_bearer_header_as_cookie_witness :
  principal_of (run Demo.reliable (AuthMiddleware1.verifyJWT Demo.bearer_request) Demo.world)
  = principal_of (run Demo.reliable (AuthMiddleware1.verifyJWT Demo.access_request) Demo.world).
Proof.
  apply (verifyJWT_bearer_header_as_cookie Demo.reliable Demo.bearer_request
           Demo.access_request (Demo.sign "akey" "u1" 3) Demo.world).
  - vm_compute. discriminate.
  - reflexivity.
  - reflexivity.
  - reflexivity.
Defined.

Lemma logout_route_revokes_token_subject_witness :
  ∃ w',
    run Demo.reliable (UserRoutes.logout Demo.access_request) Demo.world = (inr logged_out, w')
    ∧ users w' !! "u1" = Some (with_refreshToken None Demo.alice)
    ∧ ∀ i, i ≠ "u1" → users w' !! i = users Demo.world !! i.
Proof.
  apply (logout_route_revokes_token_subject Demo.reliable Demo.access_request
           (Demo.sign "akey" "u1" 3) "u1" (mkClaims (Some "u1")) Demo.alice Demo.world).
  - vm_compute. reflexivity.
  - vm_compute. discriminate.
  - vm_compute. reflexivity.
  - reflexivity.
  - vm_compute. reflexivity.
  - reflexivity.
  - reflexivity.
  - reflexivity.
Defined.

(** ** Changing a video: who may, and what a rename touches *)

Section VideoOutcomes.
Context (E : Env).
Import Cloudinary.

(** Only the owner changes a video.  For a stored video the caller does not
    own (or with no user on the request), [deleteVideo] throws 400 and
    [updateVideo] throws 403, and neither has made a call that changes
    anything: the video and its assets are as before, and the thumbnail a
    refused [updateVideo] came with is still on disk. *)
Theorem video_changes_need_the_owner
    (req : Request) (id : string) (v : Video) (w : World) :
  params req !! "videoId" = Some id → isValidObjectId E id = true →
  fault E (VideoFindById id) = None → videos w !! id = Some v →
  not_owner v req = true →
  run E (VideoController.deleteVideo req) w
    = (inl (Js.ApiError 400 "You can't delete this video as you are not the owner"), w)
  ∧ run E (VideoController.updateVideo req) w
    = (inl (Js.ApiError 403 "You can't edit this video as you are not the owner"), w).
Proof.
  intros Hparam Hvalid Hfind Hv Hown. split.
  - unfold VideoController.deleteVideo.
    rewrite run_bind, (valid_videoId_run E req id) by done. rewrite Hvalid.
    change (negb true) with false. rewrite run_pass.
    rewrite Hparam. change (default "" (Some id)) with id.
    rewrite run_bind, find_video_run, Hv by done. cbv beta iota.
    by rewrite Hown, run_stop.
  - unfold VideoController.updateVideo.
    rewrite run_bind, (valid_videoId_run E req id) by done. rewrite Hvalid.
    change (negb true) with false. rewrite run_pass.
    rewrite Hparam. change (default "" (Some id)) with id.
    rewrite run_bind, find_video_run, Hv by done. cbv beta iota.
    by rewrite Hown, run_stop.
Qed.

(** For an id no video is stored under, [deleteVideo] and [updateVideo] throw
    the same error and change nothing: 404 when the id is a well-formed
    object id, 400 when it is not. *)
Theorem video_changes_need_a_stored_video (req : Request) (id : string) (w : World) :
  params req !! "videoId" = Some id →
  fault E (VideoFindById id) = None →
  videos w !! id = None →
  let e := if isValidObjectId E id then Js.ApiError 404 "No video found"
           else Js.ApiError 400 "Invalid videoId" in
  run E (VideoController.deleteVideo req) w = (inl e, w)
  ∧ run E (VideoController.updateVideo req) w = (inl e, w).
Proof.
  intros Hparam Hfind Hnone. cbv zeta.
  unfold VideoController.deleteVideo, VideoController.updateVideo.
  rewrite !run_bind, !(valid_videoId_run E req id) by done.
  destruct (isValidObjectId E id).
  - change (negb true) with false. rewrite !run_pass.
    rewrite Hparam. change (default "" (Some id)) with id.
    by rewrite !run_bind, !find_video_run, Hnone.
  - done.
Qed.

(** [updateVideo] by the owner with no thumbnail on the request: the title
    and the description change only where the request gives a non-empty
    value, every other field of the video (thumbnail, video file, owner,
    published flag) stays, and nothing is uploaded to or destroyed on
    Cloudinary. *)
Theorem updateVideo_without_thumbnail
    (req : Request) (id : string) (v : Video) (w : World) :
  params req !! "videoId" = Some id → isValidObjectId E id = true →
  fault E (VideoFindById id) = None → videos w !! id = Some v →
  not_owner v req = false →
  Js.truthy (file_path req) = false →
  fault E (VideoFindByIdAndUpdate id
             (mkVideoUpdate (if_truthy (body req !! "title"))
                            (if_truthy (body req !! "description")) None)) = None →
  ∃ v' w',
    run E (VideoController.updateVideo req) w = (inr (video_updated v'), w')
    ∧ videos w' !! id = Some v'
    ∧ video_title v' = default (video_title v) (if_truthy (body req !! "title"))
    ∧ video_description v'
      = default (video_description v) (if_truthy (body req !! "description"))
    ∧ video_thumbnail v' = video_thumbnail v ∧ video_videoFile v' = video_videoFile v
    ∧ video_owner v' = video_owner v ∧ video_isPublished v' = video_isPublished v
    ∧ assets w' = assets w ∧ files w' = files w
    ∧ events_since w w'
      = [(VideoFindByIdAndUpdate id
            (mkVideoUpdate (if_truthy (body req !! "title"))
                           (if_truthy (body req !! "description")) None), true)].
Proof.
  intros Hparam Hvalid Hfind Hv Hown Hfile Hwrite.
  unfold VideoController.updateVideo.
  rewrite run_bind, (valid_videoId_run E req id) by done. rewrite Hvalid.
  change (negb true) with false. rewrite run_pass.
  rewrite Hparam. change (default "" (Some id)) with id.
  rewrite run_bind, find_video_run, Hv by done. cbv beta iota.
  rewrite Hown, run_pass, Hfile. cbv iota.
  rewrite run_bind. cbn [run].
  rewrite run_bind, (run_call E (VideoFindByIdAndUpdate _ _)).
  unfold perform. cbn [is_async]. rewrite Hwrite. cbn [effect]. rewrite Hv.
  eexists _, _. split; [reflexivity |].
  cbn [log videos set_videos assets files apply_video_update video_title video_description
       video_thumbnail video_videoFile video_owner video_isPublished upd_title
       upd_description upd_thumbnail default from_option].
  split; [by rewrite lookup_insert_eq |]. repeat (split; [done |]).
  by apply events_since_app.
Qed.

End VideoOutcomes.

Lemma video_changes_need_the_owner_witness :
  run Demo.reliable (VideoController.deleteVideo Demo.intruder_request) Demo.world
    = (inl (Js.ApiError 400 "You can't delete this video as you are not the owner"),
       Demo.world)
  ∧ run Demo.reliable (VideoController.updateVideo Demo.intruder_request) Demo.world
    = (inl (Js.ApiError 403 "You can't edit this video as you are not the owner"),
       Demo.world).
Proof.
  apply (video_changes_need_the_owner Demo.reliable Demo.intruder_request "v1" Demo.clip
           Demo.world).
  - reflexivity.
  - reflexivity.
  - reflexivity.
  - vm_compute. reflexivity.
  - reflexivity.
Defined.

Lemma video_changes_need_a_stored_video_witness :
  run Demo.reliable (VideoController.deleteVideo Demo.unknown_request) Demo.world
    = (inl (Js.ApiError 404 "No video found"), Demo.world)
  ∧ run Demo.reliable (VideoController.updateVideo Demo.unknown_request) Demo.world
    = (inl (Js.ApiError 404 "No video found"), Demo.world).
Proof.
  apply (video_changes_need_a_stored_video Demo.reliable Demo.unknown_request "v9"
           Demo.world).
  - reflexivity.
  - reflexivity.
  - vm_compute. reflexivity.
Defined.

Lemma updateVideo_without_thumbnail_witness :
  ∃ v' w',
    run Demo.reliable (VideoController.updateVideo Demo.rename_request) Demo.world
      = (inr (video_updated v'), w')
    ∧ videos w' !! "v1" = Some v'
    ∧ video_title v'
      = default (video_title Demo.clip) (if_truthy (body Demo.rename_request !! "title"))
    ∧ video_description v'
      = default (video_description Demo.clip)
                (if_truthy (body Demo.rename_request !! "description"))
    ∧ video_thumbnail v' = video_thumbnail Demo.clip
    ∧ video_videoFile v' = video_videoFile Demo.clip
    ∧ video_owner v' = video_owner Demo.clip
    ∧ video_isPublished v' = video_isPublished Demo.clip
    ∧ assets w' = assets Demo.world ∧ files w' = files Demo.world
    ∧ events_since Demo.world w'
      = [(VideoFindByIdAndUpdate "v1"
            (mkVideoUpdate (if_truthy (body Demo.rename_request !! "title"))
                           (if_truthy (body Demo.rename_request !! "description")) None),
          true)].
Proof.
  apply (updateVideo_without_thumbnail Demo.reliable Demo.rename_request "v1" Demo.clip
           Demo.world).
  - reflexivity.
  - reflexivity.
  - reflexivity.
  - vm_compute. reflexivity.
  - reflexivity.
  - reflexivity.
  - reflexivity.
Defined.

(** ** Publishing a video *)

Section Publishing.
Context (E : Env).
Import Cloudinary.

(** Both controllers upload the video file, then the thumbnail, whatever
    became of the first upload, and only then look at the results. *)
Lemma publishAVideo_uploads
    (req : Request) (title description videoPath thumbnailPath : string) (w : World) :
  body req !! "title" = Some title → title ≠ "" →
  body req !! "description" = Some description → description ≠ "" →
  files_path req !! "videoFile" = Some videoPath → videoPath ≠ "" →
  files_path req !! "thumbnail" = Some thumbnailPath → thumbnailPath ≠ "" →
  videoPath ≠ thumbnailPath →
  videoPath ∈ files w → thumbnailPath ∈ files w →
  let w' := after_upload E thumbnailPath (after_upload E videoPath w) in
  let k1 videoFile thumbnail : Prog Response :=
    match videoFile, thumbnail with
    | None, _ => Throw (Js.ApiError 500 "Video file upload failed")
    | Some _, None => Throw (Js.ApiError 500 "Thumbnail upload failed")
    | Some videoFile, Some thumbnail =>
        video ← call (VideoCreate
                        (mkVideoFields title description
                                       (duration videoFile) (secure_url videoFile)
                                       (secure_url thumbnail) 0 (user_id <$> user req) true));
        Ret (mkResponse 201 [] []
               (mkApiResponse 201 (DataVideo (Some video)) "Video uploaded successfully"))
    end in
  let k2 videoFile thumbnail : Prog Response :=
    match videoFile, thumbnail with
    | None, _ => Throw (Js.ApiError 400 "Video file upload failed")
    | Some _, None => Throw (Js.ApiError 400 "Thumbnail upload failed")
    | Some videoFile, Some thumbnail =>
        video ← call (VideoCreate
                        (mkVideoFields title description
                                       (duration videoFile) (url videoFile)
                                       (url thumbnail) 0 (user_id <$> user req) false));
        videoUploaded ← call (VideoFindById (video_id video));
        throw_if (bool_decide (videoUploaded = None))
                 (Js.ApiError 500 "Video upload failed please try again");;
        Ret (mkResponse 201 [] []
               (mkApiResponse 200 (DataVideo videoUploaded) "Video uploaded successfully"))
    end in
  run E (VideoController.publishAVideo req) w
    = run E (k1 (upload_result E videoPath) (upload_result E thumbnailPath)) w'
  ∧ run E (VideoController2.publishAVideo req) w
    = run E (k2 (upload_result E videoPath) (upload_result E thumbnailPath)) w'.
Proof.
  intros Ht Htne Hd Hdne Hv Hvne Hth Hthne Hdiff Hvin Hthin.
  assert (thumbnailPath ∈ files (after_upload E videoPath w)) as Hin2.
  { rewrite after_upload_files. apply elem_of_difference. split; [done |].
    intros ->%elem_of_singleton. done. }
  unfold VideoController.publishAVideo, VideoController2.publishAVideo.
  rewrite Ht, Hd, Hv, Hth, !truthy_Some by done.
  change (negb true || negb true) with false. change (negb true) with false.
  rewrite !run_pass, !run_bind, !uploadOnCloudinary_run by done.
  rewrite !run_bind, !uploadOnCloudinary_run by done.
  done.
Qed.

Lemma uploads_frame (videoPath thumbnailPath : string) (w : World) :
  let w' := after_upload E thumbnailPath (after_upload E videoPath w) in
  users w' = users w ∧ videos w' = videos w
  ∧ files w' = files w ∖ {[videoPath]} ∖ {[thumbnailPath]}
  ∧ trace w' = trace w
      ++ [(CloudinaryUpload videoPath, bool_decide (fault E (CloudinaryUpload videoPath) = None));
          (FsUnlinkSync videoPath, true);
          (CloudinaryUpload thumbnailPath,
             bool_decide (fault E (CloudinaryUpload thumbnailPath) = None));
          (FsUnlinkSync thumbnailPath, true)].
Proof.
  cbv zeta.
  destruct (after_upload_users E thumbnailPath (after_upload E videoPath w)) as (-> & -> & _).
  destruct (after_upload_users E videoPath w) as (-> & -> & _).
  rewrite !after_upload_files, !after_upload_trace, <- app_assoc. done.
Qed.

Lemma staged_files_gone (videoPath thumbnailPath : string) (s : gset string) :
  (videoPath ∉ s ∖ {[videoPath]} ∖ {[thumbnailPath]})
  ∧ (thumbnailPath ∉ s ∖ {[videoPath]} ∖ {[thumbnailPath]}).
Proof.
  split.
  - intros [[_ Hn]%elem_of_difference _]%elem_of_difference.
    apply Hn. by apply elem_of_singleton.
  - intros [_ Hn]%elem_of_difference. apply Hn. by apply elem_of_singleton.
Qed.

(** When Cloudinary refuses the video file and takes the thumbnail,
    [publishAVideo] fails (500 in the first controller, 400 in the second)
    and stores no video, yet the thumbnail has been uploaded all the same and
    is never destroyed: it stays on Cloudinary with nothing naming it.  Both
    staged files are removed. *)
Theorem publishAVideo_failed_video_upload_orphans_thumbnail
    (req : Request) (title description videoPath thumbnailPath : string) (w : World) :
  body req !! "title" = Some title → title ≠ "" →
  body req !! "description" = Some description → description ≠ "" →
  files_path req !! "videoFile" = Some videoPath → videoPath ≠ "" →
  files_path req !! "thumbnail" = Some thumbnailPath → thumbnailPath ≠ "" →
  videoPath ≠ thumbnailPath →
  videoPath ∈ files w → thumbnailPath ∈ files w →
  is_Some (fault E (CloudinaryUpload videoPath)) →
  fault E (CloudinaryUpload thumbnailPath) = None →
  ∃ w',
    run E (VideoController.publishAVideo req) w
      = (inl (Js.ApiError 500 "Video file upload failed"), w')
    ∧ run E (VideoController2.publishAVideo req) w
      = (inl (Js.ApiError 400 "Video file upload failed"), w')
    ∧ videos w' = videos w
    ∧ assets w' = {[public_id (upload_response E thumbnailPath)]} ∪ assets w
    ∧ files w' = files w ∖ {[videoPath]} ∖ {[thumbnailPath]}
    ∧ events_since w w' =
        [(CloudinaryUpload videoPath, false); (FsUnlinkSync videoPath, true);
         (CloudinaryUpload thumbnailPath, true); (FsUnlinkSync thumbnailPath, true)].
Proof.
  intros Ht Htne Hd Hdne Hv Hvne Hth Hthne Hdiff Hvin Hthin [e He] Hok.
  destruct (publishAVideo_uploads req title description videoPath thumbnailPath w)
    as [-> ->]; try done.
  destruct (uploads_frame videoPath thumbnailPath w) as (_ & Hvid & Hfiles & Htrace).
  eexists. unfold upload_result at 1 3. rewrite He. cbn [run].
  split; [reflexivity |]. split; [reflexivity |].
  split; [done |]. split.
  - unfold after_upload. by rewrite Hok, He.
  - split; [done |]. apply events_since_app. rewrite Htrace, He, Hok.
    by rewrite bool_decide_eq_false_2, bool_decide_eq_true_2.
Qed.

(** When both uploads and [Video.create] go through, the first controller's
    [publishAVideo] answers 201 with the video it stored: under a new id,
    owned by the caller, published, naming the secure URLs of the two
    uploads.  The users are untouched, both staged files are gone and both
    assets are on Cloudinary. *)
Theorem publishAVideo_stores_the_uploaded_video
    (req : Request) (title description videoPath thumbnailPath : string) (w : World) :
  body req !! "title" = Some title → title ≠ "" →
  body req !! "description" = Some description → description ≠ "" →
  files_path req !! "videoFile" = Some videoPath → videoPath ≠ "" →
  files_path req !! "thumbnail" = Some thumbnailPath → thumbnailPath ≠ "" →
  videoPath ≠ thumbnailPath →
  videoPath ∈ files w → thumbnailPath ∈ files w →
  fault E (CloudinaryUpload videoPath) = None →
  fault E (CloudinaryUpload thumbnailPath) = None →
  (∀ f, fault E (VideoCreate f) = None) →
  videos w !! new_object_id E (size (videos w)) = None →
  let id := new_object_id E (size (videos w)) in
  let owner := default "" (user_id <$> user req) in
  let videoFile := upload_response E videoPath in
  let thumbnail := upload_response E thumbnailPath in
  let v := mkVideo id (secure_url videoFile) (secure_url thumbnail) title description
                   (duration videoFile) 0 owner true in
  ∃ w',
    run E (VideoController.publishAVideo req) w = (inr (published 201 v), w')
    ∧ videos w' = <[id := v]> (videos w)
    ∧ users w' = users w
    ∧ (videoPath ∉ files w') ∧ (thumbnailPath ∉ files w')
    ∧ assets w' = {[public_id thumbnail]} ∪ ({[public_id videoFile]} ∪ assets w).
Proof.
  intros Ht Htne Hd Hdne Hv Hvne Hth Hthne Hdiff Hvin Hthin Hok1 Hok2 Hcreate Hfresh.
  cbv zeta.
  destruct (publishAVideo_uploads req title description videoPath thumbnailPath w)
    as [-> _]; try done.
  destruct (uploads_frame videoPath thumbnailPath w) as (Hus & Hvid & Hfiles & _).
  destruct (staged_files_gone videoPath thumbnailPath (files w)) as [Hgone1 Hgone2].
  unfold upload_result. rewrite Hok1, Hok2. cbv beta iota.
  rewrite run_bind, (run_call E (VideoCreate _)).
  unfold perform. cbn [is_async]. rewrite Hcreate. cbn [effect].
  rewrite Hvid, Hfresh. cbn [run].
  eexists. split; [reflexivity |].
  cbn [log videos set_videos users files assets]. rewrite Hus, Hfiles.
  split; [done |]. split; [done |]. split; [done |]. split; [done |].
  unfold after_upload. by rewrite Hok1, Hok2.
Qed.

(** The second controller's [publishAVideo] stores something else for the
    same request: the video is not published and names the plain (http)
    URLs of the uploads.  It then reads the video back; when that read fails
    the request fails although the video is stored, and when it goes through
    the answer is HTTP 201 with a body whose status code says 200. *)
Theorem publishAVideo2_stores_an_unpublished_video
    (req : Request) (title description videoPath thumbnailPath : string) (w : World) :
  body req !! "title" = Some title → title ≠ "" →
  body req !! "description" = Some description → description ≠ "" →
  files_path req !! "videoFile" = Some videoPath → videoPath ≠ "" →
  files_path req !! "thumbnail" = Some thumbnailPath → thumbnailPath ≠ "" →
  videoPath ≠ thumbnailPath →
  videoPath ∈ files w → thumbnailPath ∈ files w →
  fault E (CloudinaryUpload videoPath) = None →
  fault E (CloudinaryUpload thumbnailPath) = None →
  (∀ f, fault E (VideoCreate f) = None) →
  videos w !! new_object_id E (size (videos w)) = None →
  let id := new_object_id E (size (videos w)) in
  let owner := default "" (user_id <$> user req) in
  let videoFile := upload_response E videoPath in
  let thumbnail := upload_response E thumbnailPath in
  let v := mkVideo id (url videoFile) (url thumbnail) title description
                   (duration videoFile) 0 owner false in
  ∃ res w',
    run E (VideoController2.publishAVideo req) w = (res, w')
    ∧ videos w' = <[id := v]> (videos w)
    ∧ (videoPath ∉ files w') ∧ (thumbnailPath ∉ files w')
    ∧ match fault E (VideoFindById id) with
      | None => ∃ r, res = inr r ∧ status r = 201 ∧ statusCode (json r) = 200
      | Some e => res = inl e
      end.
Proof.
  intros Ht Htne Hd Hdne Hv Hvne Hth Hthne Hdiff Hvin Hthin Hok1 Hok2 Hcreate Hfresh.
  cbv zeta.
  destruct (publishAVideo_uploads req title description videoPath thumbnailPath w)
    as [_ ->]; try done.
  destruct (uploads_frame videoPath thumbnailPath w) as (Hus & Hvid & Hfiles & _).
  destruct (staged_files_gone videoPath thumbnailPath (files w)) as [Hgone1 Hgone2].
  unfold upload_result. rewrite Hok1, Hok2. cbv beta iota.
  rewrite run_bind, (run_call E (VideoCreate _)).
  unfold perform at 1. cbn [is_async]. rewrite Hcreate. cbn [effect].
  rewrite Hvid, Hfresh. cbv beta iota zeta.
  rewrite run_bind, (run_call E (VideoFindById _)).
  unfold perform. cbn [is_async mutating video_of_fields video_id].
  destruct (fault E (VideoFindById _)) as [e |].
  - eexists _, _. split; [reflexivity |].
    cbn [log videos set_videos files]. rewrite Hfiles. done.
  - cbn [effect log videos set_videos]. rewrite lookup_insert_eq.
    rewrite bool_decide_eq_false_2 by done. rewrite run_pass. cbn [run].
    eexists _, _. split; [reflexivity |].
    cbn [log videos set_videos files]. rewrite Hfiles.
    split; [done |]. split; [done |]. split; [done |]. eexists. by split.
Qed.

End Publishing.

Lemma publishAVideo_failed_video_upload_orphans_thumbnail_witness :
  ∃ w',
    run Demo.video_upload_fails (VideoController.publishAVideo Demo.publish_request) Demo.studio
      = (inl (Js.ApiError 500 "Video file upload failed"), w')
    ∧ run Demo.video_upload_fails (VideoController2.publishAVideo Demo.publish_request)
          Demo.studio
      = (inl (Js.ApiError 400 "Video file upload failed"), w')
    ∧ videos w' = videos Demo.studio
    ∧ assets w'
      = {[public_id (upload_response Demo.video_upload_fails "tmp/thumb.jpg")]}
        ∪ assets Demo.studio
    ∧ files w' = files Demo.studio ∖ {["tmp/clip.mp4"]} ∖ {["tmp/thumb.jpg"]}
    ∧ events_since Demo.studio w' =
        [(CloudinaryUpload "tmp/clip.mp4", false); (FsUnlinkSync "tmp/clip.mp4", true);
         (CloudinaryUpload "tmp/thumb.jpg", true); (FsUnlinkSync "tmp/thumb.jpg", true)].
Proof.
  apply (publishAVideo_failed_video_upload_orphans_thumbnail Demo.video_upload_fails
           Demo.publish_request "New" "A new clip" "tmp/clip.mp4" "tmp/thumb.jpg" Demo.studio).
  - reflexivity.
  - discriminate.
  - reflexivity.
  - discriminate.
  - reflexivity.
  - discriminate.
  - reflexivity.
  - discriminate.
  - discriminate.
  - vm_compute. reflexivity.
  - vm_compute. reflexivity.
  - vm_compute. eauto.
  - reflexivity.
Defined.

Lemma publishAVideo_stores_the_uploaded_video_witness :
  ∃ w',
    run Demo.reliable (VideoController.publishAVideo Demo.publish_request) Demo.studio
      = (inr (published 201
                (mkVideo (new_object_id Demo.reliable (size (videos Demo.studio)))
                         (secure_url (upload_response Demo.reliable "tmp/clip.mp4"))
                         (secure_url (upload_response Demo.reliable "tmp/thumb.jpg"))
                         "New" "A new clip"
                         (duration (upload_response Demo.reliable "tmp/clip.mp4")) 0
                         (default "" (user_id <$> user Demo.publish_request)) true)), w')
    ∧ videos w'
      = <[new_object_id Demo.reliable (size (videos Demo.studio)) :=
            mkVideo (new_object_id Demo.reliable (size (videos Demo.studio)))
                    (secure_url (upload_response Demo.reliable "tmp/clip.mp4"))
                    (secure_url (upload_response Demo.reliable "tmp/thumb.jpg"))
                    "New" "A new clip"
                    (duration (upload_response Demo.reliable "tmp/clip.mp4")) 0
                    (default "" (user_id <$> user Demo.publish_request)) true]>
          (videos Demo.studio)
    ∧ users w' = users Demo.studio
    ∧ ("tmp/clip.mp4" ∉ files w') ∧ ("tmp/thumb.jpg" ∉ files w')
    ∧ assets w'
      = {[public_id (upload_response Demo.reliable "tmp/thumb.jpg")]}
        ∪ ({[public_id (upload_response Demo.reliable "tmp/clip.mp4")]} ∪ assets Demo.studio).
Proof.
  apply (publishAVideo_stores_the_uploaded_video Demo.reliable Demo.publish_request
           "New" "A new clip" "tmp/clip.mp4" "tmp/thumb.jpg" Demo.studio).
  - reflexivity.
  - discriminate.
  - reflexivity.
  - discriminate.
  - reflexivity.
  - discriminate.
  - reflexivity.
  - discriminate.
  - discriminate.
  - vm_compute. reflexivity.
  - vm_compute. reflexivity.
  - reflexivity.
  - reflexivity.
  - intros f. reflexivity.
  - vm_compute. reflexivity.
Defined.

Lemma publishAVideo2_stores_an_unpublished_video_witness :
  ∃ res w',
    run Demo.reliable (VideoController2.publishAVideo Demo.publish_request) Demo.studio
      = (res, w')
    ∧ videos w'
      = <[new_object_id Demo.reliable (size (videos Demo.studio)) :=
            mkVideo (new_object_id Demo.reliable (size (videos Demo.studio)))
                    (url (upload_response Demo.reliable "tmp/clip.mp4"))
                    (url (upload_response Demo.reliable "tmp/thumb.jpg"))
                    "New" "A new clip"
                    (duration (upload_response Demo.reliable "tmp/clip.mp4")) 0
                    (default "" (user_id <$> user Demo.publish_request)) false]>
          (videos Demo.studio)
    ∧ ("tmp/clip.mp4" ∉ files w') ∧ ("tmp/thumb.jpg" ∉ files w')
    ∧ match fault Demo.reliable
              (VideoFindById (new_object_id Demo.reliable (size (videos Demo.studio)))) with
      | None => ∃ r, res = inr r ∧ status r = 201 ∧ statusCode (json r) = 200
      | Some e => res = inl e
      end.
Proof.
  apply (publishAVideo2_stores_an_unpublished_video Demo.reliable Demo.publish_request
           "New" "A new clip" "tmp/clip.mp4" "tmp/thumb.jpg" Demo.studio).
  - reflexivity.
  - discriminate.
  - reflexivity.
  - discriminate.
  - reflexivity.
  - discriminate.
  - reflexivity.
  - discriminate.
  - discriminate.
  - vm_compute. reflexivity.
  - vm_compute. reflexivity.
  - reflexivity.
  - reflexivity.
  - intros f. reflexivity.
  - vm_compute. reflexivity.
Defined.
